(** * secjs-rlp: the RLP codec of [src/encode.js]

    A shallow embedding of the encoder, the decoder, the length inspector
    and the scalar coercion, followed by the properties of the
    specification that concern them.

    Conventions of the embedding.
    - A [Buffer] is a list of octets, each an integer in [0, 256).
    - A number that the codec computes with is an exact integer or [NaN].
      Integers are not rounded: the embedding agrees with double arithmetic as long as the
      values stay below [2^53], which every buffer length does.  A length
      field of up to eight bytes can denote more; [parseInt] then rounds,
      to a value that is still above every buffer length, so that the
      comparisons of [_decode] come out as they do here.
    - A thrown [Error] is [Throw msg], with the message of the source.
    - [_decode] is recursive and its [while] loops need not terminate, so it
      takes a step budget; [OutOfFuel] says that the budget was too small.
      An outcome other than [OutOfFuel] does not depend on the budget
      ([fuel_monotone]). *)

From Stdlib Require Import ZArith List Bool Ascii String Lia.
Import ListNotations.

#[local] Open Scope string_scope.
#[local] Open Scope list_scope.
#[local] Open Scope Z_scope.

Set Warnings "-register-all".

(** ** Values *)

Definition Buffer := list Z.

Definition is_byte (z : Z) : Prop := 0 <= z < 256.

Inductive number : Type :=
| Int (z : Z)
| NaN.

(** The JavaScript values that reach the codec.  [JNumber n] is a number
    that is an integer or [NaN]; [JFloat t] is a finite number that is not
    an integer, given by the text [t] that [toString(16)] prints for it,
    which is all that the codec looks at; [JBigNum ds] is an object whose
    [toArray()] returns [ds]; [JObject] is any object without a [toArray]
    property. *)
Inductive JSValue : Type :=
| JBuffer (b : Buffer)
| JString (s : string)
| JNumber (n : number)
| JFloat (text16 : string)
| JNull
| JUndefined
| JBool (b : bool)
| JArray (items : list JSValue)
| JBigNum (digits : list Z)
| JObject.

(** ** Outcomes *)

Inductive result (A : Type) : Type :=
| Ok (a : A)
| Throw (msg : string)
| OutOfFuel.

Arguments Ok {A} a.
Arguments Throw {A} msg.
Arguments OutOfFuel {A}.

Definition bind {A B : Type} (r : result A) (k : A -> result B) : result B :=
  match r with
  | Ok a => k a
  | Throw msg => Throw msg
  | OutOfFuel => OutOfFuel
  end.

Notation "x <- r ;; k" := (bind r (fun x => k))
  (at level 61, r at next level, right associativity).

(** ** Number primitives *)

Definition num_add (a b : number) : number :=
  match a, b with
  | Int x, Int y => Int (x + y)
  | _, _ => NaN
  end.

Definition num_sub (a b : number) : number :=
  match a, b with
  | Int x, Int y => Int (x - y)
  | _, _ => NaN
  end.

(** Comparisons with [NaN] are false. *)
Definition num_leb (a b : number) : bool :=
  match a, b with
  | Int x, Int y => x <=? y
  | _, _ => false
  end.

Definition num_ltb (a b : number) : bool :=
  match a, b with
  | Int x, Int y => x <? y
  | _, _ => false
  end.

Definition num_gtb (a b : number) : bool := num_ltb b a.

(** [===] on numbers. *)
Definition num_eqb (a b : number) : bool :=
  match a, b with
  | Int x, Int y => x =? y
  | _, _ => false
  end.

(** ** Buffer primitives *)

Definition buf_length (b : Buffer) : Z := Z.of_nat (List.length b).

(** [b[i]]; an index out of range gives [undefined], which the arithmetic
    and the comparisons of the source turn into [NaN]. *)
Definition buf_get (b : Buffer) (i : nat) : number :=
  match nth_error b i with
  | Some z => Int z
  | None => NaN
  end.

(** Node's [adjustOffset], which [Buffer.prototype.slice] applies to both
    of its arguments. *)
Definition adjustOffset (offset : number) (len : Z) : Z :=
  match offset with
  | NaN => 0
  | Int o =>
      if o =? 0 then 0
      else if o <? 0 then Z.max (o + len) 0
      else if o <? len then o
      else len
  end.

(** [b.slice(start, end)] *)
Definition slice (b : Buffer) (start end_ : number) : Buffer :=
  let s := adjustOffset start (buf_length b) in
  let e := adjustOffset end_ (buf_length b) in
  firstn (Z.to_nat (if s <? e then e - s else 0)) (skipn (Z.to_nat s) b).

(** [b.slice(start)] *)
Definition slice_from (b : Buffer) (start : number) : Buffer :=
  slice b start (Int (buf_length b)).

(** [Buffer.from(array)]: every element is stored modulo 256. *)
Definition buffer_from_array (a : list Z) : Buffer :=
  map (fun z => z mod 256) a.

(** ** Hexadecimal text *)

Definition hexDigit (d : Z) : ascii :=
  if d <? 10 then ascii_of_nat (Z.to_nat (48 + d))
  else ascii_of_nat (Z.to_nat (87 + d)).

Definition hexValue (c : ascii) : option Z :=
  let n := Z.of_nat (nat_of_ascii c) in
  if (48 <=? n) && (n <=? 57) then Some (n - 48)
  else if (97 <=? n) && (n <=? 102) then Some (n - 87)
  else if (65 <=? n) && (n <=? 70) then Some (n - 55)
  else None.

(** [b.toString('hex')] *)
Fixpoint toHexString (b : Buffer) : string :=
  match b with
  | [] => ""
  | z :: b' => String (hexDigit (z / 16)) (String (hexDigit (z mod 16)) (toHexString b'))
  end.

(** [Buffer.from(s, 'hex')]: pairs of digits are decoded up to the first
    pair that is not hexadecimal; a last digit without a partner is
    dropped. *)
Fixpoint buffer_from_hex (s : string) : Buffer :=
  match s with
  | String c1 (String c2 s') =>
      match hexValue c1, hexValue c2 with
      | Some h, Some l => (16 * h + l) :: buffer_from_hex s'
      | _, _ => []
      end
  | _ => []
  end.

(** The digits of a non-negative integer in base 16, most significant
    first, in front of [acc]. *)
Fixpoint hex_digits (fuel : nat) (n : Z) (acc : string) : string :=
  match fuel with
  | O => String (hexDigit (n mod 16)) acc
  | S fuel' =>
      if n <? 16 then String (hexDigit n) acc
      else hex_digits fuel' (n / 16) (String (hexDigit (n mod 16)) acc)
  end.

(** [n.toString(16)] *)
Definition toString16 (n : number) : string :=
  match n with
  | NaN => "NaN"
  | Int z =>
      if z <? 0 then String "-" (hex_digits (Z.to_nat (Z.log2 (- z))) (- z) "")
      else hex_digits (Z.to_nat (Z.log2 z)) z ""
  end.

(** [parseInt(v, 16)] for a text [v] that starts with neither white space,
    a sign nor [0x], as every [toString('hex')] does: the value of the
    longest prefix of hexadecimal digits, [NaN] when that prefix is
    empty.  The value is the exact integer: it is the number that
    [parseInt] returns as long as it does not exceed [2^53]; above,
    [parseInt] returns the nearest double, which is still larger than the
    length of any buffer. *)
Fixpoint parse_hex_prefix (s : string) (acc : Z) : Z :=
  match s with
  | String c s' =>
      match hexValue c with
      | Some d => parse_hex_prefix s' (16 * acc + d)
      | None => acc
      end
  | EmptyString => acc
  end.

Definition parseInt16 (v : string) : number :=
  match v with
  | String c _ =>
      match hexValue c with
      | Some _ => Int (parse_hex_prefix v 0)
      | None => NaN
      end
  | EmptyString => NaN
  end.

Definition str_length (s : string) : Z := Z.of_nat (String.length s).

(** ** The helpers of [src/encode.js] *)

Definition safeParseInt (v : string) : result number :=
  if String.eqb (substring 0 2 v) "00" then Throw "invalid RLP: extra zeros"
  else Ok (parseInt16 v).

Definition isHexPrefixed (str : string) : bool :=
  String.eqb (substring 0 2 str) "0x".

Definition stripHexPrefix (str : string) : string :=
  if isHexPrefixed str then substring 2 (String.length str - 2) str else str.

Definition intToHex (i : number) : string :=
  let hex := toString16 i in
  if negb (str_length hex mod 2 =? 0) then String "0" hex else hex.

Definition padToEven (a : string) : string :=
  if negb (str_length a mod 2 =? 0) then String "0" a else a.

Definition intToBuffer (i : number) : Buffer :=
  buffer_from_hex (intToHex i).

(** [Buffer.from(v)] for a text: UTF-8.  The characters of a [string] are
    the code points below 256. *)
Fixpoint buffer_from_utf8 (s : string) : Buffer :=
  match s with
  | EmptyString => []
  | String c s' =>
      let n := Z.of_nat (nat_of_ascii c) in
      if n <? 128 then n :: buffer_from_utf8 s'
      else (192 + n / 64) :: (128 + n mod 64) :: buffer_from_utf8 s'
  end.

(** [!v] for a number *)
Definition num_falsy (n : number) : bool :=
  match n with
  | Int z => z =? 0
  | NaN => true
  end.

Definition toBuffer (v : JSValue) : result Buffer :=
  match v with
  | JBuffer b => Ok b
  | JString s =>
      if isHexPrefixed s then Ok (buffer_from_hex (padToEven (stripHexPrefix s)))
      else Ok (buffer_from_utf8 s)
  | JNumber n =>
      if num_falsy n then Ok [] else Ok (intToBuffer n)
  | JFloat text16 =>
      (* [!v] is false; [intToBuffer], with [text16] for [v.toString(16)] *)
      Ok (buffer_from_hex (padToEven text16))
  | JNull | JUndefined => Ok []
  | JBigNum ds => Ok (buffer_from_array ds)
  | JBool _ | JArray _ | JObject => Throw "invalid type"
  end.

Definition encodeLength (len offset : Z) : Buffer :=
  if len <? 56 then buffer_from_array [len + offset]
  else
    let hexLength := intToHex (Int len) in
    let lLength := str_length hexLength / 2 in
    let firstByte := intToHex (Int (offset + 55 + lLength)) in
    buffer_from_hex (String.append firstByte hexLength).

(** ** encode *)

Fixpoint encode (input : JSValue) : result Buffer :=
  match input with
  | JArray items =>
      buf <- (fix encode_each (l : list JSValue) : result Buffer :=
                match l with
                | [] => Ok []
                | x :: l' =>
                    o <- encode x ;;
                    rest <- encode_each l' ;;
                    Ok (o ++ rest)
                end) items ;;
      Ok (encodeLength (buf_length buf) 192 ++ buf)
  | _ =>
      input <- toBuffer input ;;
      if (buf_length input =? 1) && num_ltb (buf_get input 0) (Int 128)
      then Ok input
      else Ok (encodeLength (buf_length input) 128 ++ input)
  end.

(** ** decode *)

(** [!v] *)
Definition falsy (v : JSValue) : bool :=
  match v with
  | JNull | JUndefined => true
  | JBool b => negb b
  | JNumber n => num_falsy n
  | JString s => String.eqb s ""
  | JFloat _ | JBuffer _ | JArray _ | JBigNum _ | JObject => false
  end.

(** [v.length === 0]; a value without a [length] property, or with one
    that is not zero, gives [false]. *)
Definition length_is_zero (v : JSValue) : bool :=
  match v with
  | JBuffer b => buf_length b =? 0
  | JString s => str_length s =? 0
  | JArray items => Z.of_nat (List.length items) =? 0
  | _ => false
  end.

(** [_decode], with the two [while] loops of its list branches as
    [decode_loop].  Each call and each iteration takes one unit of fuel. *)
Fixpoint _decode (fuel : nat) (input : Buffer) {struct fuel}
  : result (JSValue * Buffer) :=
  match fuel with
  | O => OutOfFuel
  | S fuel' =>
      let firstByte := buf_get input 0 in
      if num_leb firstByte (Int 0x7f) then
        Ok (JBuffer (slice input (Int 0) (Int 1)), slice_from input (Int 1))
      else if num_leb firstByte (Int 0xb7) then
        let length := num_sub firstByte (Int 0x7f) in
        let data :=
          if num_eqb firstByte (Int 0x80) then [] else slice input (Int 1) length in
        if num_eqb length (Int 2) && num_ltb (buf_get data 0) (Int 0x80) then
          Throw "invalid rlp encoding: byte must be less 0x80"
        else Ok (JBuffer data, slice_from input length)
      else if num_leb firstByte (Int 0xbf) then
        let llength := num_sub firstByte (Int 0xb6) in
        length <- safeParseInt (toHexString (slice input (Int 1) llength)) ;;
        let data := slice input llength (num_add length llength) in
        if num_ltb (Int (buf_length data)) length then Throw "invalid RLP"
        else Ok (JBuffer data, slice_from input (num_add length llength))
      else if num_leb firstByte (Int 0xf7) then
        let length := num_sub firstByte (Int 0xbf) in
        let innerRemainder := slice input (Int 1) length in
        decoded <- decode_loop fuel' innerRemainder [] ;;
        Ok (JArray decoded, slice_from input length)
      else
        let llength := num_sub firstByte (Int 0xf6) in
        length <- safeParseInt (toHexString (slice input (Int 1) llength)) ;;
        let totalLength := num_add llength length in
        if num_gtb totalLength (Int (buf_length input)) then
          Throw "invalid rlp: total length is larger than the data"
        else
          let innerRemainder := slice input llength totalLength in
          if buf_length innerRemainder =? 0 then
            Throw "invalid rlp, List has a invalid length"
          else
            decoded <- decode_loop fuel' innerRemainder [] ;;
            Ok (JArray decoded, slice_from input totalLength)
  end

with decode_loop (fuel : nat) (innerRemainder : Buffer) (decoded : list JSValue)
  {struct fuel} : result (list JSValue) :=
  if buf_length innerRemainder =? 0 then Ok decoded
  else
    match fuel with
    | O => OutOfFuel
    | S fuel' =>
        d <- _decode fuel' innerRemainder ;;
        decode_loop fuel' (snd d) (decoded ++ [fst d])
    end.

Definition decode (fuel : nat) (input : JSValue) : result JSValue :=
  if falsy input || length_is_zero input then Ok (JBuffer [])
  else
    input <- toBuffer input ;;
    decoded <- _decode fuel input ;;
    if buf_length (snd decoded) =? 0 then Throw "invalid remainder"
    else Ok (fst decoded).

(** ** getLength *)

Definition getLength (input : JSValue) : result JSValue :=
  if falsy input || length_is_zero input then Ok (JBuffer [])
  else
    input <- toBuffer input ;;
    let firstByte := buf_get input 0 in
    if num_leb firstByte (Int 0x7f) then Ok (JNumber (Int (buf_length input)))
    else if num_leb firstByte (Int 0xb7) then Ok (JNumber (num_sub firstByte (Int 0x7f)))
    else if num_leb firstByte (Int 0xbf) then Ok (JNumber (num_sub firstByte (Int 0xb6)))
    else if num_leb firstByte (Int 0xf7) then Ok (JNumber (num_sub firstByte (Int 0xbf)))
    else
      let llength := num_sub firstByte (Int 0xf6) in
      length <- safeParseInt (toHexString (slice input (Int 1) llength)) ;;
      Ok (JNumber (num_add llength length)).

(** ** The errors of the specification

    The source throws plain [Error]s; the specification names them. *)

Inductive SpecError : Type :=
| InvalidInputType
| RedundantLengthBytes
| NonCanonicalSingleByte
| TruncatedInput
| InvalidListFraming
| TrailingBytes.

Definition classify (msg : string) : option SpecError :=
  if String.eqb msg "invalid type" then Some InvalidInputType
  else if String.eqb msg "invalid RLP: extra zeros" then Some RedundantLengthBytes
  else if String.eqb msg "invalid rlp encoding: byte must be less 0x80"
  then Some NonCanonicalSingleByte
  else if String.eqb msg "invalid RLP" then Some TruncatedInput
  else if String.eqb msg "invalid rlp: total length is larger than the data"
  then Some TruncatedInput
  else if String.eqb msg "invalid rlp, List has a invalid length"
  then Some InvalidListFraming
  else if String.eqb msg "invalid remainder" then Some TrailingBytes
  else None.

Definition fails_with {A : Type} (r : result A) (e : SpecError) : Prop :=
  exists msg, r = Throw msg /\ classify msg = Some e.

(** ** RLP items

    The values of the data model: a byte string, or a list of items. *)

Fixpoint is_item (x : JSValue) : bool :=
  match x with
  | JBuffer b => forallb (fun z => (0 <=? z) && (z <? 256)) b
  | JArray items => forallb is_item items
  | _ => false
  end.

(** The big-endian value of a byte string. *)
Definition be_value (b : Buffer) : Z :=
  fold_left (fun acc z => 256 * acc + z) b 0.

(** [Number.MAX_SAFE_INTEGER]: no buffer is longer. *)
Definition MAX_SAFE_INTEGER : Z := 2 ^ 53 - 1.

(** ** Notions used in the statements *)

(** A digit value of base 16. *)
Definition is_digit (d : Z) : Prop := 0 <= d < 16.

(** The text of a list of digit values. *)
Fixpoint hex_text (ds : list Z) : string :=
  match ds with
  | [] => ""
  | d :: ds' => String (hexDigit d) (hex_text ds')
  end.

(** The value of a list of digits read after [acc], most significant
    first. *)
Definition digits_value (ds : list Z) (acc : Z) : Z :=
  fold_left (fun a d => 16 * a + d) ds acc.

(** The bytes of a list of digit values, two digits a byte. *)
Fixpoint pair_bytes (ds : list Z) : Buffer :=
  match ds with
  | h :: l :: ds' => (16 * h + l) :: pair_bytes ds'
  | _ => []
  end.

(** The digit values of a byte string, two digits a byte. *)
Definition byte_digits (b : Buffer) : list Z :=
  flat_map (fun z => [z / 16; z mod 16]) b.

(** The shapes that [toBuffer] converts: a buffer, a text, a number
    (integer or not), [null], [undefined], or an object with a [toArray]
    conversion. *)
Definition coercible (v : JSValue) : bool :=
  match v with
  | JBuffer _ | JString _ | JNumber _ | JFloat _ | JNull | JUndefined
  | JBigNum _ => true
  | JBool _ | JArray _ | JObject => false
  end.

(** The payload of a list: the encodings of its items, one after another. *)
Fixpoint encode_each (items : list JSValue) : result Buffer :=
  match items with
  | [] => Ok []
  | x :: items' =>
      o <- encode x ;;
      rest <- encode_each items' ;;
      Ok (o ++ rest)
  end.

(** [_decode] reads an encoding of [x] back, and leaves what follows it. *)
Definition decodes_back (x : JSValue) : Prop :=
  forall e, encode x = Ok e -> buf_length e < 2 ^ 64 ->
  exists n, forall fuel rest,
      (n <= fuel)%nat -> _decode fuel (e ++ rest) = Ok (x, rest).

(** The payload span of a buffer in list form and the remainder after it,
    as the two list branches of [_decode] cut them out. *)
Definition payload_span (input : Buffer) : result (Buffer * Buffer) :=
  let firstByte := buf_get input 0 in
  if num_leb firstByte (Int 0xf7) then
    let length := num_sub firstByte (Int 0xbf) in
    Ok (slice input (Int 1) length, slice_from input length)
  else
    let llength := num_sub firstByte (Int 0xf6) in
    length <- safeParseInt (toHexString (slice input (Int 1) llength)) ;;
    let totalLength := num_add llength length in
    if num_gtb totalLength (Int (buf_length input)) then
      Throw "invalid rlp: total length is larger than the data"
    else
      let innerRemainder := slice input llength totalLength in
      if buf_length innerRemainder =? 0 then
        Throw "invalid rlp, List has a invalid length"
      else Ok (innerRemainder, slice_from input totalLength).

(** [children_of span items]: the span splits into consecutive pieces, and
    decoding at the start of each piece gives the next item and leaves the
    pieces after it; nothing is left after the last item. *)
Inductive children_of : Buffer -> list JSValue -> Prop :=
| children_done : children_of [] []
| children_next (fuel : nat) (span consumed rem : Buffer) (d : JSValue)
                (ds : list JSValue) :
    span <> [] ->
    _decode fuel span = Ok (d, rem) ->
    span = consumed ++ rem ->
    children_of rem ds ->
    children_of span (d :: ds).

(** [child_fails span msg]: an item of the span, reached by decoding the
    items before it, throws [msg]. *)
Inductive child_fails : Buffer -> string -> Prop :=
| child_fails_now (fuel : nat) (span : Buffer) (msg : string) :
    span <> [] ->
    _decode fuel span = Throw msg ->
    child_fails span msg
| child_fails_later (fuel : nat) (span rem : Buffer) (d : JSValue) (msg : string) :
    span <> [] ->
    _decode fuel span = Ok (d, rem) ->
    child_fails rem msg ->
    child_fails span msg.

(** [child_stalls span]: the loop over the span does not end.  It reaches,
    by decoding the items before it, either a long-string marker
    ([0xb8..0xbf]) that is all that is left, which is read as the empty
    string and left in place, or an item whose own decoding does not
    end. *)
Inductive child_stalls : Buffer -> Prop :=
| child_stalls_marker (b : Z) :
    0xb8 <= b <= 0xbf ->
    child_stalls [b]
| child_stalls_inside (span : Buffer) :
    span <> [] ->
    (forall fuel, _decode fuel span = OutOfFuel) ->
    child_stalls span
| child_stalls_later (fuel : nat) (span rem : Buffer) (d : JSValue) :
    span <> [] ->
    _decode fuel span = Ok (d, rem) ->
    child_stalls rem ->
    child_stalls span.

(** The values that [encode] accepts: arrays of such values, and the
    scalars that [toBuffer] converts. *)
Fixpoint encodable (x : JSValue) : bool :=
  match x with
  | JArray items => forallb encodable items
  | JBool _ | JObject => false
  | _ => true
  end.

(** The item that a value stands for: its scalars replaced by the byte
    strings that [toBuffer] makes of them. *)
Fixpoint normalize (v : JSValue) : result JSValue :=
  match v with
  | JArray items =>
      items' <- (fix normalize_each (l : list JSValue) : result (list JSValue) :=
                   match l with
                   | [] => Ok []
                   | x :: l' =>
                       x' <- normalize x ;;
                       rest <- normalize_each l' ;;
                       Ok (x' :: rest)
                   end) items ;;
      Ok (JArray items')
  | _ =>
      b <- toBuffer v ;;
      Ok (JBuffer b)
  end.

(** The buffers that occur in a value hold octets. *)
Fixpoint octet_leaves (v : JSValue) : bool :=
  match v with
  | JBuffer b => forallb (fun z => (0 <=? z) && (z <? 256)) b
  | JArray items => forallb octet_leaves items
  | _ => true
  end.

(** * Properties *)

(** Linear arithmetic with division and remainder by constants. *)
Ltac dlia := Z.to_euclidean_division_equations; lia.

(** ** Slices *)

Lemma buf_length_nonneg (b : Buffer) : 0 <= buf_length b.
Proof. unfold buf_length; lia. Qed.

Lemma buf_length_app (a b : Buffer) :
  buf_length (a ++ b) = buf_length a + buf_length b.
Proof. unfold buf_length; rewrite length_app; lia. Qed.

Lemma buf_length_cons (z : Z) (b : Buffer) :
  buf_length (z :: b) = 1 + buf_length b.
Proof. unfold buf_length; simpl List.length; lia. Qed.

Lemma buf_length_zero (b : Buffer) : buf_length b = 0 -> b = [].
Proof. destruct b; [reflexivity | rewrite buf_length_cons; pose proof (buf_length_nonneg b); lia]. Qed.

Lemma adjustOffset_nonneg (o len : Z) :
  0 <= o -> 0 <= len -> adjustOffset (Int o) len = Z.min o len.
Proof.
  intros Ho Hl. unfold adjustOffset.
  destruct (Z.eqb_spec o 0); [lia |].
  destruct (Z.ltb_spec o 0); [lia |].
  destruct (Z.ltb_spec o len); lia.
Qed.

Lemma slice_nonneg (b : Buffer) (s e : Z) :
  0 <= s -> 0 <= e ->
  slice b (Int s) (Int e) = firstn (Z.to_nat (e - s)) (skipn (Z.to_nat s) b).
Proof.
  intros Hs He. unfold slice.
  pose proof (buf_length_nonneg b) as Hl.
  rewrite !adjustOffset_nonneg by assumption.
  unfold buf_length in *.
  destruct (Z.le_gt_cases (Z.of_nat (List.length b)) s) as [Hbig | Hsmall].
  - rewrite (skipn_all2 b (n := Z.to_nat s)) by lia.
    rewrite (skipn_all2 b (n := Z.to_nat (Z.min s _))) by lia.
    now rewrite !firstn_nil.
  - rewrite (Z.min_l s) by lia.
    destruct (Z.ltb_spec s (Z.min e (Z.of_nat (List.length b)))) as [Hlt | Hge].
    + destruct (Z.le_gt_cases e (Z.of_nat (List.length b))).
      * rewrite Z.min_l by lia. reflexivity.
      * rewrite Z.min_r by lia.
        rewrite !firstn_all2; try reflexivity; rewrite length_skipn; lia.
    + replace (Z.to_nat (e - s)) with 0%nat by lia. reflexivity.
Qed.

Lemma slice_from_nonneg (b : Buffer) (s : Z) :
  0 <= s -> slice_from b (Int s) = skipn (Z.to_nat s) b.
Proof.
  intros Hs. unfold slice_from.
  rewrite slice_nonneg by (auto using buf_length_nonneg).
  destruct (Z.le_gt_cases s (buf_length b)).
  - apply firstn_all2. rewrite length_skipn. unfold buf_length in *. lia.
  - rewrite skipn_all2 by (unfold buf_length in *; lia). apply firstn_nil.
Qed.

(** The part of [pre ++ mid ++ post] between the two cuts. *)
Lemma slice_app_mid (pre mid post : Buffer) :
  slice (pre ++ mid ++ post) (Int (buf_length pre))
        (Int (buf_length pre + buf_length mid)) = mid.
Proof.
  pose proof (buf_length_nonneg pre). pose proof (buf_length_nonneg mid).
  rewrite slice_nonneg by lia. unfold buf_length.
  rewrite Nat2Z.id, skipn_app, skipn_all, Nat.sub_diag. simpl.
  replace (Z.to_nat _) with (List.length mid) by lia.
  rewrite firstn_app, firstn_all, Nat.sub_diag. simpl. apply app_nil_r.
Qed.

Lemma slice_from_app (pre post : Buffer) :
  slice_from (pre ++ post) (Int (buf_length pre)) = post.
Proof.
  rewrite slice_from_nonneg by apply buf_length_nonneg. unfold buf_length.
  rewrite Nat2Z.id, skipn_app, skipn_all, Nat.sub_diag. reflexivity.
Qed.

(** ** Hexadecimal text *)

Ltac digit_cases d H :=
  let E := fresh "E" in
  assert (E : d = 0 \/ d = 1 \/ d = 2 \/ d = 3 \/ d = 4 \/ d = 5 \/ d = 6 \/ d = 7 \/
              d = 8 \/ d = 9 \/ d = 10 \/ d = 11 \/ d = 12 \/ d = 13 \/ d = 14 \/
              d = 15) by (unfold is_digit in H; lia);
  repeat (destruct E as [E | E]; [subst d |]); [.. | subst d].

Lemma hexValue_hexDigit (d : Z) : is_digit d -> hexValue (hexDigit d) = Some d.
Proof. intros H. digit_cases d H; reflexivity. Qed.

Lemma hexDigit_zero (d : Z) : is_digit d -> hexDigit d = "0"%char -> d = 0.
Proof. intros H. digit_cases d H; intros E; try reflexivity; discriminate E. Qed.

Lemma list_ind2 {A : Type} (P : list A -> Prop) :
  P [] -> (forall x, P [x]) -> (forall x y l, P l -> P (x :: y :: l)) ->
  forall l, P l.
Proof.
  intros Hnil Hone Hstep l.
  assert (H : P l /\ forall x, P (x :: l)).
  { induction l as [| a l [IH1 IH2]]; split; auto. }
  apply H.
Qed.

Lemma hex_text_app (a b : list Z) :
  hex_text (a ++ b) = String.append (hex_text a) (hex_text b).
Proof. induction a as [| d a IH]; simpl; [reflexivity | now rewrite IH]. Qed.

Lemma hex_text_length (ds : list Z) :
  String.length (hex_text ds) = List.length ds.
Proof. induction ds as [| d ds IH]; simpl; [reflexivity | now rewrite IH]. Qed.

Lemma parse_hex_text (ds : list Z) (acc : Z) :
  Forall is_digit ds -> parse_hex_prefix (hex_text ds) acc = digits_value ds acc.
Proof.
  intros H. revert acc. induction H as [| d ds Hd _ IH]; intros acc; simpl.
  - reflexivity.
  - rewrite (hexValue_hexDigit d Hd). apply IH.
Qed.

Lemma digits_value_app (a b : list Z) (acc : Z) :
  digits_value (a ++ b) acc = digits_value b (digits_value a acc).
Proof. unfold digits_value. apply fold_left_app. Qed.

Lemma buffer_from_hex_text (ds : list Z) (s : string) :
  Forall is_digit ds -> Z.of_nat (List.length ds) mod 2 = 0 ->
  buffer_from_hex (String.append (hex_text ds) s) = pair_bytes ds ++ buffer_from_hex s.
Proof.
  induction ds as [| x | x y ds IH] using list_ind2; intros Hd Hlen.
  - reflexivity.
  - simpl in Hlen. discriminate Hlen.
  - inversion Hd as [| ? ? Hx Hd']; subst. inversion Hd' as [| ? ? Hy Hd'']; subst.
    cbn [hex_text String.append buffer_from_hex pair_bytes].
    rewrite (hexValue_hexDigit x Hx), (hexValue_hexDigit y Hy).
    rewrite IH; [reflexivity | assumption |].
    cbn [List.length] in Hlen. dlia.
Qed.

Lemma toHexString_pair_bytes (ds : list Z) :
  Forall is_digit ds -> Z.of_nat (List.length ds) mod 2 = 0 ->
  toHexString (pair_bytes ds) = hex_text ds.
Proof.
  induction ds as [| x | x y ds IH] using list_ind2; intros Hd Hlen.
  - reflexivity.
  - simpl in Hlen. discriminate Hlen.
  - inversion Hd as [| ? ? Hx Hd']; subst. inversion Hd' as [| ? ? Hy Hd'']; subst.
    cbn [hex_text toHexString pair_bytes].
    unfold is_digit in Hx, Hy.
    replace ((16 * x + y) / 16) with x by dlia.
    replace ((16 * x + y) mod 16) with y by dlia.
    rewrite IH; [reflexivity | assumption |].
    cbn [List.length] in Hlen. dlia.
Qed.

Lemma pair_bytes_is_byte (ds : list Z) :
  Forall is_digit ds -> Forall is_byte (pair_bytes ds).
Proof.
  induction ds as [| x | x y ds IH] using list_ind2; intros Hd;
    cbn [pair_bytes]; auto.
  inversion Hd as [| ? ? Hx Hd']; subst. inversion Hd' as [| ? ? Hy Hd'']; subst.
  constructor; [unfold is_byte, is_digit in *; lia | auto].
Qed.

Lemma pair_bytes_length (ds : list Z) :
  Z.of_nat (List.length ds) mod 2 = 0 ->
  2 * buf_length (pair_bytes ds) = Z.of_nat (List.length ds).
Proof.
  unfold buf_length.
  induction ds as [| x | x y ds IH] using list_ind2; intros Hlen.
  - reflexivity.
  - simpl in Hlen. discriminate Hlen.
  - cbn [pair_bytes List.length] in *.
    assert (Z.of_nat (List.length ds) mod 2 = 0) as H by dlia.
    specialize (IH H). lia.
Qed.

Lemma pair_bytes_value (ds : list Z) (acc : Z) :
  Z.of_nat (List.length ds) mod 2 = 0 ->
  fold_left (fun a z => 256 * a + z) (pair_bytes ds) acc = digits_value ds acc.
Proof.
  revert acc.
  induction ds as [| x | x y ds IH] using list_ind2; intros acc Hlen.
  - reflexivity.
  - simpl in Hlen. discriminate Hlen.
  - cbn [pair_bytes List.length fold_left digits_value] in *.
    rewrite IH by dlia. unfold digits_value. f_equal. lia.
Qed.

Lemma digits_value_lower (ds : list Z) (acc : Z) :
  Forall is_digit ds -> 0 <= acc ->
  acc * 16 ^ Z.of_nat (List.length ds) <= digits_value ds acc.
Proof.
  intros H. revert acc.
  induction H as [| d ds Hd _ IH]; intros acc Hacc.
  - simpl. lia.
  - cbn [List.length digits_value fold_left].
    rewrite Nat2Z.inj_succ, Z.pow_succ_r by lia.
    unfold is_digit in Hd.
    specialize (IH (16 * acc + d) ltac:(lia)). unfold digits_value in IH.
    assert (0 <= 16 ^ Z.of_nat (List.length ds)) by (apply Z.pow_nonneg; lia).
    nia.
Qed.

(** [hex_digits] writes the base-16 digits of [n], the first of which is not
    zero unless [n] is. *)
Lemma hex_digits_spec (fuel : nat) (n : Z) (acc : string) :
  0 <= n < 16 ^ (Z.of_nat fuel + 1) ->
  exists d ds,
    hex_digits fuel n acc = String.append (hex_text (d :: ds)) acc /\
    Forall is_digit (d :: ds) /\
    digits_value (d :: ds) 0 = n /\
    (0 < n -> d <> 0).
Proof.
  revert n acc. induction fuel as [| fuel IH]; intros n acc Hn.
  - exists n, []. simpl in *.
    replace (n mod 16) with n by dlia.
    repeat split; [constructor; [unfold is_digit; lia | constructor] | lia].
  - cbn [hex_digits]. destruct (Z.ltb_spec n 16) as [Hlt | Hge].
    + exists n, []. simpl.
      repeat split; [constructor; [unfold is_digit; lia | constructor] | lia].
    + assert (Hq : 0 <= n / 16 < 16 ^ (Z.of_nat fuel + 1)).
      { rewrite Nat2Z.inj_succ in Hn.
        replace (Z.succ (Z.of_nat fuel) + 1) with (Z.succ (Z.of_nat fuel + 1)) in Hn by lia.
        rewrite Z.pow_succ_r in Hn by lia.
        split; [dlia |]. apply Z.div_lt_upper_bound; lia. }
      destruct (IH (n / 16) (String (hexDigit (n mod 16)) acc) Hq)
        as (d & ds & Heq & Hds & Hval & Hnz).
      exists d, (ds ++ [n mod 16]). repeat split.
      * rewrite Heq. change (d :: ds ++ [n mod 16]) with ((d :: ds) ++ [n mod 16]).
        rewrite hex_text_app. simpl.
        clear. generalize (hex_text ds) as s. intros s.
        f_equal. induction s as [| c s IHs]; simpl; [reflexivity | now rewrite IHs].
      * change (d :: ds ++ [n mod 16]) with ((d :: ds) ++ [n mod 16]).
        apply Forall_app. split; [assumption |].
        constructor; [unfold is_digit; dlia | constructor].
      * change (d :: ds ++ [n mod 16]) with ((d :: ds) ++ [n mod 16]).
        rewrite digits_value_app, Hval. cbn [digits_value fold_left]. dlia.
      * intros _. apply Hnz. dlia.
Qed.

Lemma log2_fuel (n : Z) : 0 <= n -> 0 <= n < 16 ^ (Z.of_nat (Z.to_nat (Z.log2 n)) + 1).
Proof.
  intros Hn. split; [assumption |].
  pose proof (Z.log2_nonneg n) as Hl. rewrite Z2Nat.id by assumption.
  destruct (Z.eq_dec n 0) as [-> | Hnz].
  - simpl. lia.
  - destruct (Z.log2_spec n ltac:(lia)) as [_ Hup].
    eapply Z.lt_le_trans; [exact Hup |].
    replace (Z.succ (Z.log2 n)) with (Z.log2 n + 1) by lia.
    apply Z.pow_le_mono_l. lia.
Qed.

(** The even-length hexadecimal text of a positive integer: its value is
    the integer, and its first byte is not zero. *)
Lemma intToHex_spec (n : Z) :
  0 < n ->
  exists h l ds,
    intToHex (Int n) = hex_text (h :: l :: ds) /\
    Forall is_digit (h :: l :: ds) /\
    Z.of_nat (List.length (h :: l :: ds)) mod 2 = 0 /\
    digits_value (h :: l :: ds) 0 = n /\
    16 * h + l <> 0 /\
    16 ^ Z.of_nat (List.length ds) <= n.
Proof.
  intros Hn. unfold intToHex, toString16.
  destruct (Z.ltb_spec n 0); [lia |].
  destruct (hex_digits_spec (Z.to_nat (Z.log2 n)) n "" (log2_fuel n ltac:(lia)))
    as (d & ds & Heq & Hds & Hval & Hnz).
  assert (Happ : forall s, String.append s "" = s).
  { induction s as [| c s IHs]; simpl; [reflexivity | now rewrite IHs]. }
  rewrite Happ in Heq. rewrite Heq. unfold str_length. rewrite hex_text_length.
  specialize (Hnz Hn).
  assert (Hd : is_digit d) by (inversion Hds; assumption).
  assert (Hlow : d * 16 ^ Z.of_nat (List.length ds) <= n).
  { rewrite <- Hval. cbn [digits_value fold_left].
    inversion Hds; subst.
    apply (digits_value_lower ds (16 * 0 + d)); [assumption | unfold is_digit in Hd; lia]. }
  assert (Hpow : 0 < 16 ^ Z.of_nat (List.length ds)) by (apply Z.pow_pos_nonneg; lia).
  destruct (Z.eqb_spec (Z.of_nat (List.length (d :: ds)) mod 2) 0) as [He | Ho]; simpl negb; cbv iota.
  - destruct ds as [| l ds].
    + simpl in He. discriminate He.
    + exists d, l, ds. repeat split; try assumption.
      * inversion Hds as [| ? ? _ Hds']; inversion Hds' as [| ? ? Hl _]; subst.
        unfold is_digit in *. lia.
      * cbn [List.length] in Hlow. rewrite Nat2Z.inj_succ, Z.pow_succ_r in Hlow by lia.
        unfold is_digit in Hd.
        assert (0 < 16 ^ Z.of_nat (List.length ds)) by (apply Z.pow_pos_nonneg; lia).
        nia.
  - exists 0, d, ds. repeat split.
    + constructor; [unfold is_digit; lia | assumption].
    + cbn [List.length] in *. dlia.
    + cbn [digits_value fold_left] in *. exact Hval.
    + lia.
    + unfold is_digit in Hd. nia.
Qed.

Lemma string_app_nil (s : string) : String.append s "" = s.
Proof. induction s as [| c s IH]; simpl; [reflexivity | now rewrite IH]. Qed.

Lemma buffer_from_hex_digits (ds : list Z) :
  Forall is_digit ds -> Z.of_nat (List.length ds) mod 2 = 0 ->
  buffer_from_hex (hex_text ds) = pair_bytes ds.
Proof.
  intros Hd Hlen. rewrite <- (string_app_nil (hex_text ds)).
  rewrite buffer_from_hex_text by assumption. apply app_nil_r.
Qed.

(** What [safeParseInt] reads in the text of an even number of digits of
    which the first two are not both zero. *)
Lemma safeParseInt_hex_text (h l : Z) (ds : list Z) :
  Forall is_digit (h :: l :: ds) -> 16 * h + l <> 0 ->
  safeParseInt (hex_text (h :: l :: ds)) = Ok (Int (digits_value (h :: l :: ds) 0)).
Proof.
  intros Hd Hnz.
  assert (Hh : is_digit h) by (inversion Hd; assumption).
  assert (Hl : is_digit l) by (inversion Hd as [| ? ? _ Hd']; inversion Hd'; assumption).
  unfold safeParseInt.
  replace (substring 0 2 (hex_text (h :: l :: ds)))
    with (String (hexDigit h) (String (hexDigit l) "")).
  2:{ cbn [hex_text substring]. destruct (hex_text ds); reflexivity. }
  destruct (String.eqb_spec (String (hexDigit h) (String (hexDigit l) "")) "00") as [E | _].
  - injection E as Eh El.
    apply (hexDigit_zero h Hh) in Eh. apply (hexDigit_zero l Hl) in El. lia.
  - unfold parseInt16. cbn [hex_text]. rewrite (hexValue_hexDigit h Hh).
    change (String (hexDigit h) (String (hexDigit l) (hex_text ds)))
      with (hex_text (h :: l :: ds)).
    now rewrite parse_hex_text.
Qed.

Lemma encodeLength_short (len offset : Z) :
  len < 56 -> 0 <= len + offset < 256 ->
  encodeLength len offset = [len + offset].
Proof.
  intros Hlen Hoff. unfold encodeLength.
  destruct (Z.ltb_spec len 56); [| lia].
  unfold buffer_from_array; simpl map. f_equal. apply Z.mod_small; lia.
Qed.

(** The long form: one marker byte, then the bytes of the length. *)
Lemma encodeLength_long (len offset : Z) :
  56 <= len < 2 ^ 64 -> 0 <= offset -> offset + 63 <= 255 ->
  exists z lb,
    encodeLength len offset = (offset + 55 + buf_length (z :: lb)) :: z :: lb /\
    buf_length (z :: lb) <= 8 /\
    Forall is_byte (z :: lb) /\
    z <> 0 /\
    be_value (z :: lb) = len /\
    safeParseInt (toHexString (z :: lb)) = Ok (Int len).
Proof.
  intros Hlen Hoff0 Hoff. unfold encodeLength.
  destruct (Z.ltb_spec len 56); [lia |].
  destruct (intToHex_spec len ltac:(lia)) as (h & l & ds & Heq & Hd & Hev & Hval & Hnz & Hlow).
  rewrite Heq. unfold str_length. rewrite hex_text_length.
  pose proof (pair_bytes_length _ Hev) as Hpl.
  assert (Hds : Z.of_nat (List.length ds) < 16).
  { apply (Z.pow_lt_mono_r_iff 16); [lia | lia |].
    change (16 ^ 16) with (2 ^ 64). lia. }
  set (lb := pair_bytes (h :: l :: ds)) in *.
  assert (Hlb : buf_length lb <= 8) by (cbn [List.length] in *; dlia).
  assert (Hlb1 : 1 <= buf_length lb).
  { unfold lb. cbn [pair_bytes]. rewrite buf_length_cons.
    pose proof (buf_length_nonneg (pair_bytes ds)). lia. }
  replace (Z.of_nat (List.length (h :: l :: ds)) / 2) with (buf_length lb) by dlia.
  set (m := offset + 55 + buf_length lb).
  destruct (intToHex_spec m ltac:(unfold m; lia))
    as (h' & l' & ds' & Heq' & Hd' & Hev' & Hval' & _ & Hlow').
  assert (ds' = []) as ->.
  { destruct ds' as [| a [| b ds']]; [reflexivity | |].
    - cbn [List.length] in Hev'. simpl in Hev'. discriminate Hev'.
    - exfalso. cbn [List.length] in Hlow'.
      rewrite !Nat2Z.inj_succ, !Z.pow_succ_r in Hlow' by lia.
      assert (0 < 16 ^ Z.of_nat (List.length ds')) by (apply Z.pow_pos_nonneg; lia).
      unfold m in Hlow'. lia. }
  rewrite Heq'.
  rewrite buffer_from_hex_text by assumption.
  rewrite buffer_from_hex_digits by assumption.
  fold lb. cbn [pair_bytes app].
  cbn [digits_value fold_left] in Hval'.
  replace (16 * h' + l') with m by lia.
  assert (Hbytes : Forall is_byte lb) by (apply pair_bytes_is_byte; assumption).
  assert (Hhex : toHexString lb = hex_text (h :: l :: ds))
    by (apply toHexString_pair_bytes; assumption).
  assert (Hbe : be_value lb = len).
  { unfold be_value, lb. rewrite pair_bytes_value by assumption. exact Hval. }
  assert (Hsp : safeParseInt (toHexString lb) = Ok (Int len)).
  { rewrite Hhex, safeParseInt_hex_text by assumption. now rewrite Hval. }
  subst m lb. cbn [pair_bytes] in *.
  exists (16 * h + l), (pair_bytes ds). repeat split; assumption.
Qed.

(** ** Boundary cases of the specification *)

Example encode_zero : encode (JNumber (Int 0)) = Ok [0x80].
Proof. reflexivity. Qed.

Example encode_byte_zero : encode (JBuffer [0x00]) = Ok [0x00].
Proof. reflexivity. Qed.

Example encode_dog : encode (JString "dog") = Ok [0x83; 0x64; 0x6f; 0x67].
Proof. reflexivity. Qed.

Example encode_empty_list : encode (JArray []) = Ok [0xc0].
Proof. reflexivity. Qed.

Example encode_cat_dog :
  encode (JArray [JString "cat"; JString "dog"]) =
    Ok [0xc8; 0x83; 0x63; 0x61; 0x74; 0x83; 0x64; 0x6f; 0x67].
Proof. reflexivity. Qed.

Example encode_integer_1024 : encode (JNumber (Int 1024)) = Ok [0x82; 0x04; 0x00].
Proof. reflexivity. Qed.

Example encode_hex_text : encode (JString "0x123") = Ok [0x82; 0x01; 0x23].
Proof. reflexivity. Qed.

Example encode_56_bytes :
  encode (JBuffer (repeat 0x07 56)) = Ok (0xb8 :: 0x38 :: repeat 0x07 56).
Proof. reflexivity. Qed.

Example _decode_empty_string : _decode 1 [0x80] = Ok (JBuffer [], []).
Proof. reflexivity. Qed.

Example decode_empty_buffer : decode 0 (JBuffer []) = Ok (JBuffer []).
Proof. reflexivity. Qed.

Example decode_redundant_length :
  decode 1 (JBuffer [0xb8; 0x00; 0x61]) = Throw "invalid RLP: extra zeros".
Proof. reflexivity. Qed.

(** ** The length-prefix encoder *)

Lemma max_safe_below_2_64 (n : Z) : n <= MAX_SAFE_INTEGER -> n < 2 ^ 64.
Proof. unfold MAX_SAFE_INTEGER. intros H. lia. Qed.

(** C7.  For a payload length that a buffer can have and the base offset of
    strings ([0x80]) or of lists ([0xc0]), [encodeLength] returns the single
    byte [baseOffset + payloadLength] when the length is below 56; otherwise
    it returns one marker byte [baseOffset + 55 + len(lengthBytes)] followed
    by [lengthBytes], the big-endian bytes of the length, which is minimal
    since its first byte is not zero.  [encodeLength] is a total function:
    it has no failing outcome. *)
Theorem encodeLength_prefix (payloadLength baseOffset : Z) :
  0 <= payloadLength <= MAX_SAFE_INTEGER ->
  baseOffset = 0x80 \/ baseOffset = 0xc0 ->
  (payloadLength < 56 ->
   encodeLength payloadLength baseOffset = [baseOffset + payloadLength]) /\
  (56 <= payloadLength ->
   exists lengthBytes,
     encodeLength payloadLength baseOffset =
       (baseOffset + 55 + buf_length lengthBytes) :: lengthBytes /\
     is_byte (baseOffset + 55 + buf_length lengthBytes) /\
     Forall is_byte lengthBytes /\
     be_value lengthBytes = payloadLength /\
     hd 0 lengthBytes <> 0).
Proof.
  intros [Hlen0 Hlen] Hoff. apply max_safe_below_2_64 in Hlen. split; intros H.
  - rewrite encodeLength_short by (destruct Hoff; subst; lia).
    f_equal. lia.
  - destruct (encodeLength_long payloadLength baseOffset)
      as (z & lb & Heq & Hle & Hb & Hz & Hv & _); try (destruct Hoff; subst; lia).
    exists (z :: lb). repeat split; try assumption.
    + pose proof (buf_length_nonneg (z :: lb)). destruct Hoff; subst; lia.
    + pose proof (buf_length_nonneg (z :: lb)). destruct Hoff; subst; lia.
Qed.

Lemma encodeLength_prefix_witness :
  (0 <= 1024 <= MAX_SAFE_INTEGER) /\ (0x80 = 0x80 \/ 0x80 = 0xc0) /\
  (56 <= 1024 ->
   exists lengthBytes,
     encodeLength 1024 0x80 = (0x80 + 55 + buf_length lengthBytes) :: lengthBytes /\
     is_byte (0x80 + 55 + buf_length lengthBytes) /\
     Forall is_byte lengthBytes /\
     be_value lengthBytes = 1024 /\
     hd 0 lengthBytes <> 0).
Proof.
  assert (H1 : 0 <= 1024 <= MAX_SAFE_INTEGER) by (unfold MAX_SAFE_INTEGER; lia).
  assert (H2 : 0x80 = 0x80 \/ 0x80 = 0xc0) by (left; reflexivity).
  split; [exact H1 | split; [exact H2 |]].
  exact (proj2 (encodeLength_prefix 1024 0x80 H1 H2)).
Defined.

(** ** Decoding a short string of one byte *)

(** C6.  For every byte [b] below [0x80], decoding the two-byte buffer
    [[0x81, b]] fails with NonCanonicalSingleByte (the source's
    'invalid rlp encoding: byte must be less 0x80'), with any budget of at
    least one step. *)
Theorem decode_non_canonical_single_byte (fuel : nat) (b : Z) :
  0 <= b < 0x80 ->
  decode (S fuel) (JBuffer [0x81; b]) =
    Throw "invalid rlp encoding: byte must be less 0x80" /\
  fails_with (decode (S fuel) (JBuffer [0x81; b])) NonCanonicalSingleByte.
Proof.
  intros Hb.
  assert (E : decode (S fuel) (JBuffer [0x81; b]) =
              Throw "invalid rlp encoding: byte must be less 0x80").
  { unfold decode. cbn -[Z.ltb slice].
    change (slice [129; b] (Int 1) (Int 2)) with [b]. cbn -[Z.ltb].
    destruct (Z.ltb_spec b 128); [reflexivity | lia]. }
  split; [exact E |]. rewrite E. eexists; split; reflexivity.
Qed.

Lemma decode_non_canonical_single_byte_witness :
  0 <= 0 < 0x80 /\
  fails_with (decode 1 (JBuffer [0x81; 0x00])) NonCanonicalSingleByte.
Proof.
  assert (H : 0 <= 0 < 0x80) by lia.
  split; [exact H |]. exact (proj2 (decode_non_canonical_single_byte 0 0 H)).
Defined.

(** ** The length inspector *)

(** C10.  Applied to [null], to [undefined] or to an empty buffer,
    [getLength] raises nothing and returns an empty buffer, which is not a
    number. *)
Theorem getLength_no_input :
  getLength JNull = Ok (JBuffer []) /\
  getLength JUndefined = Ok (JBuffer []) /\
  getLength (JBuffer []) = Ok (JBuffer []) /\
  forall n : number,
    getLength JNull <> Ok (JNumber n) /\
    getLength JUndefined <> Ok (JNumber n) /\
    getLength (JBuffer []) <> Ok (JNumber n).
Proof.
  repeat split; discriminate.
Qed.

(** C3, where the code departs from the claim.  For a buffer in long-string
    form (first byte [b] in [0xb8..0xbf]), [getLength] returns
    [1 + (b - 0xb7)], the length of the prefix alone: the payload length
    that the length field declares is not added, whatever follows [b]. *)
Theorem getLength_long_string_prefix_only (b : Z) (rest : Buffer) :
  0xb8 <= b <= 0xbf ->
  getLength (JBuffer (b :: rest)) = Ok (JNumber (Int (1 + (b - 0xb7)))).
Proof.
  intros Hb. unfold getLength.
  cbn -[Z.leb Z.sub Z.add buf_length].
  rewrite buf_length_cons.
  destruct (Z.eqb_spec (1 + buf_length rest) 0) as [E | _].
  { pose proof (buf_length_nonneg rest). lia. }
  destruct (Z.leb_spec b 127); [lia |].
  destruct (Z.leb_spec b 183); [lia |].
  destruct (Z.leb_spec b 191); [| lia].
  do 3 f_equal. lia.
Qed.

Lemma getLength_long_string_prefix_only_witness :
  0xb8 <= 0xb8 <= 0xbf /\
  getLength (JBuffer (0xb8 :: 56 :: repeat 0x61 56)) = Ok (JNumber (Int 2)).
Proof.
  assert (H : 0xb8 <= 0xb8 <= 0xbf) by lia.
  split; [exact H |].
  exact (getLength_long_string_prefix_only 0xb8 (56 :: repeat 0x61 56) H).
Defined.

(** The encoding of a string of 56 bytes takes 58 bytes, and [getLength]
    answers 2. *)
Lemma getLength_long_string_example :
  encode (JBuffer (repeat 0x61 56)) = Ok (0xb8 :: 56 :: repeat 0x61 56) /\
  buf_length (0xb8 :: 56 :: repeat 0x61 56) = 58 /\
  getLength (JBuffer (0xb8 :: 56 :: repeat 0x61 56)) = Ok (JNumber (Int 2)).
Proof. repeat split. Qed.

(** The first branch answers the length of the whole buffer, which is 1
    only when nothing follows the byte. *)
Lemma getLength_single_byte (b : Z) (rest : Buffer) :
  b <= 0x7f ->
  getLength (JBuffer (b :: rest)) = Ok (JNumber (Int (1 + buf_length rest))).
Proof.
  intros Hb. unfold getLength.
  cbn -[Z.leb Z.sub Z.add buf_length].
  rewrite buf_length_cons.
  destruct (Z.eqb_spec (1 + buf_length rest) 0) as [E | _].
  { pose proof (buf_length_nonneg rest). lia. }
  destruct (Z.leb_spec b 127); [reflexivity | lia].
Qed.

(** The two short forms answer the prefix length plus the payload length. *)
Lemma getLength_short_forms (b : Z) (rest : Buffer) :
  (0x80 <= b <= 0xb7 ->
   getLength (JBuffer (b :: rest)) = Ok (JNumber (Int (1 + (b - 0x80))))) /\
  (0xc0 <= b <= 0xf7 ->
   getLength (JBuffer (b :: rest)) = Ok (JNumber (Int (1 + (b - 0xc0))))).
Proof.
  split; intros Hb; unfold getLength;
    cbn -[Z.leb Z.sub Z.add buf_length];
    rewrite buf_length_cons;
    (destruct (Z.eqb_spec (1 + buf_length rest) 0) as [E | _];
     [pose proof (buf_length_nonneg rest); lia |]);
    repeat match goal with
           | |- context [Z.leb b ?c] => destruct (Z.leb_spec b c); try lia
           end;
    do 3 f_equal; lia.
Qed.

(** ** Scalar coercion *)

Lemma hex_digits_cons (fuel : nat) (n : Z) (acc : string) :
  exists c s, hex_digits fuel n acc = String c s.
Proof.
  revert n acc. induction fuel as [| fuel IH]; intros n acc; cbn [hex_digits].
  - eauto.
  - destruct (n <? 16); [eauto | apply IH].
Qed.

Lemma intToBuffer_negative (z : Z) : z < 0 -> intToBuffer (Int z) = [].
Proof.
  intros Hz. unfold intToBuffer, intToHex, toString16.
  destruct (Z.ltb_spec z 0); [| lia].
  destruct (hex_digits_cons (Z.to_nat (Z.log2 (- z))) (- z) "") as (c & s & ->).
  destruct (negb _); cbn [buffer_from_hex].
  - reflexivity.
  - change (hexValue "-") with (@None Z). reflexivity.
Qed.

(** C5, against the claim: the negative integer [-1] is not rejected, it is
    coerced to the empty byte sequence; nor is [1.5], whose base-16 text is
    [1.8]. *)
Lemma toBuffer_negative_not_rejected :
  toBuffer (JNumber (Int (-1))) = Ok [] /\
  ~ fails_with (toBuffer (JNumber (Int (-1)))) InvalidInputType /\
  toBuffer (JFloat "1.8") = Ok [0x01] /\
  ~ fails_with (toBuffer (JFloat "1.8")) InvalidInputType.
Proof.
  repeat split; intros (msg & H & _); discriminate H.
Qed.

(** C5, as the code has it.  [toBuffer] fails with InvalidInputType
    ('invalid type') exactly on the values that are neither a buffer, a text,
    a number, [null] nor [undefined] and that expose no [toArray]; every
    other value is converted.  No number is rejected: a negative integer
    becomes the empty byte sequence, and a number that is not an integer
    becomes the bytes that the leading digit pairs of its base-16 text
    spell. *)
Theorem toBuffer_invalid_type (v : JSValue) :
  (coercible v = false ->
   toBuffer v = Throw "invalid type" /\ fails_with (toBuffer v) InvalidInputType) /\
  (coercible v = true -> exists b, toBuffer v = Ok b) /\
  (forall z, z < 0 -> toBuffer (JNumber (Int z)) = Ok []) /\
  (forall text16, toBuffer (JFloat text16) = Ok (buffer_from_hex (padToEven text16))).
Proof.
  split; [| split; [| split]].
  - intros Hv. destruct v; try discriminate Hv;
      (split; [reflexivity | eexists; split; reflexivity]).
  - intros Hv. destruct v; try discriminate Hv; cbn [toBuffer]; eauto.
    + destruct (isHexPrefixed s); eauto.
    + destruct (num_falsy n); eauto.
  - intros z Hz. cbn [toBuffer num_falsy].
    destruct (Z.eqb_spec z 0); [lia |]. now rewrite intToBuffer_negative.
  - reflexivity.
Qed.

Lemma toBuffer_invalid_type_witness :
  coercible JObject = false /\ coercible JNull = true /\ (-256 < 0) /\
  fails_with (toBuffer JObject) InvalidInputType /\
  (exists b, toBuffer JNull = Ok b) /\
  toBuffer (JNumber (Int (-256))) = Ok [].
Proof.
  assert (H1 : coercible JObject = false) by reflexivity.
  assert (H2 : coercible JNull = true) by reflexivity.
  assert (H3 : -256 < 0) by lia.
  split; [exact H1 | split; [exact H2 | split; [exact H3 | split; [| split]]]].
  - exact (proj2 (proj1 (toBuffer_invalid_type JObject) H1)).
  - exact (proj1 (proj2 (toBuffer_invalid_type JNull)) H2).
  - exact (proj1 (proj2 (proj2 (toBuffer_invalid_type JObject))) (-256) H3).
Defined.

(** [1.5], whose base-16 text is [1.8], is coerced to the byte [0x01]. *)
Example toBuffer_one_and_a_half : toBuffer (JFloat "1.8") = Ok [0x01].
Proof. reflexivity. Qed.

(** ** The five branches of [_decode] *)

Ltac first_byte_branch b :=
  cbn [_decode buf_get nth_error num_leb num_sub num_eqb];
  repeat match goal with
         | |- context [Z.leb b ?c] => destruct (Z.leb_spec b c); try lia
         end.

Lemma _decode_single (fuel : nat) (b : Z) (rest : Buffer) :
  b <= 0x7f -> _decode (S fuel) (b :: rest) = Ok (JBuffer [b], rest).
Proof.
  intros Hb. first_byte_branch b.
  rewrite slice_nonneg, slice_from_nonneg by lia. reflexivity.
Qed.

Lemma _decode_short_string (fuel : nat) (b : Z) (rest : Buffer) :
  0x80 <= b <= 0xb7 ->
  _decode (S fuel) (b :: rest) =
    let data := if b =? 0x80 then [] else slice (b :: rest) (Int 1) (Int (b - 0x7f)) in
    if (b - 0x7f =? 2) && num_ltb (buf_get data 0) (Int 0x80)
    then Throw "invalid rlp encoding: byte must be less 0x80"
    else Ok (JBuffer data, slice_from (b :: rest) (Int (b - 0x7f))).
Proof.
  intros Hb. first_byte_branch b. reflexivity.
Qed.

Lemma _decode_long_string (fuel : nat) (b : Z) (rest : Buffer) :
  0xb8 <= b <= 0xbf ->
  _decode (S fuel) (b :: rest) =
    (length <- safeParseInt (toHexString (slice (b :: rest) (Int 1) (Int (b - 0xb6)))) ;;
     let data := slice (b :: rest) (Int (b - 0xb6)) (num_add length (Int (b - 0xb6))) in
     if num_ltb (Int (buf_length data)) length then Throw "invalid RLP"
     else Ok (JBuffer data, slice_from (b :: rest) (num_add length (Int (b - 0xb6))))).
Proof.
  intros Hb. first_byte_branch b. reflexivity.
Qed.

Lemma _decode_short_list (fuel : nat) (b : Z) (rest : Buffer) :
  0xc0 <= b <= 0xf7 ->
  _decode (S fuel) (b :: rest) =
    (decoded <- decode_loop fuel (slice (b :: rest) (Int 1) (Int (b - 0xbf))) [] ;;
     Ok (JArray decoded, slice_from (b :: rest) (Int (b - 0xbf)))).
Proof.
  intros Hb. first_byte_branch b. reflexivity.
Qed.

Lemma _decode_long_list (fuel : nat) (b : Z) (rest : Buffer) :
  0xf8 <= b ->
  _decode (S fuel) (b :: rest) =
    (length <- safeParseInt (toHexString (slice (b :: rest) (Int 1) (Int (b - 0xf6)))) ;;
     let totalLength := num_add (Int (b - 0xf6)) length in
     if num_gtb totalLength (Int (buf_length (b :: rest)))
     then Throw "invalid rlp: total length is larger than the data"
     else
       let innerRemainder := slice (b :: rest) (Int (b - 0xf6)) totalLength in
       if buf_length innerRemainder =? 0
       then Throw "invalid rlp, List has a invalid length"
       else
         decoded <- decode_loop fuel innerRemainder [] ;;
         Ok (JArray decoded, slice_from (b :: rest) totalLength)).
Proof.
  intros Hb. first_byte_branch b. reflexivity.
Qed.

Lemma _decode_empty (fuel : nat) :
  _decode (S fuel) [] = Throw "invalid rlp, List has a invalid length".
Proof. reflexivity. Qed.

Lemma decode_loop_nil (fuel : nat) (decoded : list JSValue) :
  decode_loop fuel [] decoded = Ok decoded.
Proof. destruct fuel; reflexivity. Qed.

Lemma decode_loop_cons (fuel : nat) (z : Z) (span : Buffer) (decoded : list JSValue) :
  decode_loop (S fuel) (z :: span) decoded =
    (d <- _decode fuel (z :: span) ;;
     decode_loop fuel (snd d) (decoded ++ [fst d])).
Proof.
  cbn [decode_loop]. rewrite buf_length_cons.
  destruct (Z.eqb_spec (1 + buf_length span) 0) as [E | _]; [| reflexivity].
  pose proof (buf_length_nonneg span). lia.
Qed.

(** Top-level [decode] of a buffer that is not empty. *)
Lemma decode_buffer (fuel : nat) (z : Z) (input : Buffer) :
  decode fuel (JBuffer (z :: input)) =
    (decoded <- _decode fuel (z :: input) ;;
     if buf_length (snd decoded) =? 0 then Throw "invalid remainder"
     else Ok (fst decoded)).
Proof.
  unfold decode. cbn [falsy length_is_zero orb toBuffer bind].
  rewrite buf_length_cons.
  destruct (Z.eqb_spec (1 + buf_length input) 0) as [E | _]; [| reflexivity].
  pose proof (buf_length_nonneg input). lia.
Qed.

(** ** Reading a length field *)

Lemma toHexString_byte_digits (b : Buffer) :
  toHexString b = hex_text (byte_digits b).
Proof. induction b as [| z b IH]; simpl; [reflexivity | now rewrite IH]. Qed.

Lemma byte_digits_is_digit (b : Buffer) :
  Forall is_byte b -> Forall is_digit (byte_digits b).
Proof.
  induction 1 as [| z b Hz _ IH]; cbn [byte_digits flat_map app]; [constructor |].
  unfold is_byte in Hz. repeat constructor; try dlia. exact IH.
Qed.

Lemma byte_digits_value (b : Buffer) (acc : Z) :
  digits_value (byte_digits b) acc = fold_left (fun a z => 256 * a + z) b acc.
Proof.
  revert acc. induction b as [| z b IH]; intros acc; [reflexivity |].
  cbn [byte_digits flat_map app digits_value fold_left].
  unfold byte_digits, digits_value in IH. rewrite IH. f_equal. dlia.
Qed.

(** A length field that is not empty and does not start with a zero byte
    is read as its big-endian value, which is positive. *)
Lemma safeParseInt_field (field : Buffer) :
  Forall is_byte field -> hd 0 field <> 0 ->
  safeParseInt (toHexString field) = Ok (Int (be_value field)) /\ 0 < be_value field.
Proof.
  intros Hb Hhd. destruct field as [| z field]; [now contradiction Hhd |].
  cbn [hd] in Hhd.
  pose proof (byte_digits_is_digit _ Hb) as Hd.
  rewrite toHexString_byte_digits. unfold be_value.
  rewrite <- byte_digits_value.
  cbn [byte_digits flat_map app] in *. fold (byte_digits field) in *.
  assert (Hz : 16 * (z / 16) + z mod 16 = z) by dlia.
  split.
  - apply safeParseInt_hex_text; [assumption | lia].
  - cbn [digits_value fold_left].
    inversion Hd as [| ? ? H1 Hd1]; subst. inversion Hd1 as [| ? ? H2 Hd2]; subst.
    pose proof (digits_value_lower (byte_digits field)
                  (16 * (16 * 0 + z / 16) + z mod 16) Hd2) as Hlow.
    unfold digits_value in Hlow.
    assert (0 < 16 ^ Z.of_nat (List.length (byte_digits field)))
      by (apply Z.pow_pos_nonneg; lia).
    inversion Hb as [| ? ? Hzb _]; subst. unfold is_byte in Hzb.
    assert (0 < 16 * (16 * 0 + z / 16) + z mod 16) by lia.
    specialize (Hlow ltac:(lia)). nia.
Qed.

(** A field that starts with a zero byte is refused. *)
Lemma safeParseInt_leading_zero (field : Buffer) :
  safeParseInt (toHexString (0 :: field)) = Throw "invalid RLP: extra zeros".
Proof.
  unfold safeParseInt. cbn [toHexString].
  change (hexDigit (0 / 16)) with "0"%char. change (hexDigit (0 mod 16)) with "0"%char.
  cbn [substring]. destruct (toHexString field); reflexivity.
Qed.

Lemma slice_length_bound (b : Buffer) (s e : Z) :
  0 <= s -> 0 <= e ->
  buf_length (slice b (Int s) (Int e)) <= Z.max 0 (buf_length b - s).
Proof.
  intros Hs He. rewrite slice_nonneg by assumption. unfold buf_length.
  rewrite length_firstn, length_skipn. lia.
Qed.

(** The long-list branch of [getLength] adds the length that the field
    declares, a length that a number holds exactly, to the length of the
    prefix. *)
Lemma getLength_long_list (b : Z) (rest field : Buffer) :
  0xf8 <= b <= 0xff ->
  field = slice (b :: rest) (Int 1) (Int (b - 0xf6)) ->
  Forall is_byte field -> hd 0 field <> 0 ->
  1 + (b - 0xf7) + be_value field <= MAX_SAFE_INTEGER ->
  getLength (JBuffer (b :: rest)) =
    Ok (JNumber (Int (1 + (b - 0xf7) + be_value field))).
Proof.
  intros Hb Hfield Hbytes Hhd _.
  destruct (safeParseInt_field field Hbytes Hhd) as [Hparse _].
  unfold getLength.
  cbn [falsy length_is_zero orb toBuffer bind buf_get nth_error num_leb num_sub].
  rewrite buf_length_cons.
  destruct (Z.eqb_spec (1 + buf_length rest) 0) as [E | _].
  { pose proof (buf_length_nonneg rest). lia. }
  repeat match goal with
         | |- context [Z.leb b ?c] => destruct (Z.leb_spec b c); try lia
         end.
  rewrite <- Hfield, Hparse. cbn [bind num_add]. do 3 f_equal. lia.
Qed.

(** ** Truncated long forms *)

(** C8, against the claim.  In [[0xb9, 0x00, 0x38]] the length field
    [[0x00, 0x38]] declares 56 payload bytes and none remains: decode fails
    with 'invalid RLP: extra zeros', which is RedundantLengthBytes and not
    TruncatedInput.  And a long-string marker alone, [[0xb8]], is not
    refused at all: decode returns the empty byte string. *)
Lemma decode_truncated_long_form_not_truncated_input :
  decode 1 (JBuffer [0xb9; 0x00; 0x38]) = Throw "invalid RLP: extra zeros" /\
  (forall fuel,
      ~ fails_with (decode fuel (JBuffer [0xb9; 0x00; 0x38])) TruncatedInput) /\
  decode 1 (JBuffer [0xb8]) = Ok (JBuffer []).
Proof.
  split; [reflexivity | split; [| reflexivity]].
  intros [| fuel] (msg & H & Hc).
  - discriminate H.
  - assert (E : decode (S fuel) (JBuffer [0xb9; 0x00; 0x38]) =
                Throw "invalid RLP: extra zeros") by reflexivity.
    rewrite E in H. injection H as <-. discriminate Hc.
Qed.

(** C8, as the code has it.  A buffer starts a long-string or a long-list
    form, with a length-of-length [k], and holds at least one byte of its
    length field, the (at most) [k] bytes after the first one.  When the
    field declares more payload bytes than remain after the prefix, decode
    fails and returns no shortened payload:
    - with TruncatedInput ('invalid RLP' for a string, 'invalid rlp: total
      length is larger than the data' for a list) when the field does not
      start with a zero byte;
    - with RedundantLengthBytes ('invalid RLP: extra zeros') when it
      does. *)
Theorem decode_truncated_long_form (fuel : nat) (b k : Z) (rest field : Buffer) :
  (0xb8 <= b <= 0xbf /\ k = b - 0xb7) \/ (0xf8 <= b <= 0xff /\ k = b - 0xf7) ->
  field = slice (b :: rest) (Int 1) (Int (1 + k)) ->
  Forall is_byte field -> field <> [] ->
  buf_length (b :: rest) - (1 + k) < be_value field ->
  (hd 0 field <> 0 ->
   fails_with (decode (S fuel) (JBuffer (b :: rest))) TruncatedInput) /\
  (hd 0 field = 0 ->
   fails_with (decode (S fuel) (JBuffer (b :: rest))) RedundantLengthBytes) /\
  (exists msg, decode (S fuel) (JBuffer (b :: rest)) = Throw msg).
Proof.
  intros Hform Hfield Hbytes Hne Hover.
  assert (Hcanon : hd 0 field <> 0 ->
                   fails_with (decode (S fuel) (JBuffer (b :: rest))) TruncatedInput).
  { intros Hhd.
    destruct (safeParseInt_field field Hbytes Hhd) as [Hparse Hpos].
    rewrite decode_buffer.
    destruct Hform as [[Hb ->] | [Hb ->]].
    - rewrite _decode_long_string by lia.
      replace (b - 0xb6) with (1 + (b - 0xb7)) by lia.
      rewrite <- Hfield, Hparse. cbn [bind num_add].
      pose proof (slice_length_bound (b :: rest) (1 + (b - 0xb7))
                    (be_value field + (1 + (b - 0xb7))) ltac:(lia) ltac:(lia)) as Hlen.
      cbn [num_ltb].
      destruct (Z.ltb_spec (buf_length (slice (b :: rest) (Int (1 + (b - 183)))
                              (Int (be_value field + (1 + (b - 183)))))) (be_value field))
        as [_ | Hge]; [| lia].
      eexists; split; reflexivity.
    - rewrite _decode_long_list by lia.
      replace (b - 0xf6) with (1 + (b - 0xf7)) by lia.
      rewrite <- Hfield, Hparse. cbn [bind num_add num_gtb num_ltb].
      destruct (Z.ltb_spec (buf_length (b :: rest)) (1 + (b - 247) + be_value field))
        as [_ | Hge]; [| lia].
      eexists; split; reflexivity. }
  assert (Hzero : hd 0 field = 0 ->
                  fails_with (decode (S fuel) (JBuffer (b :: rest))) RedundantLengthBytes).
  { intros Hhd. destruct field as [| z field]; [now contradiction Hne |].
    cbn [hd] in Hhd. subst z.
    rewrite decode_buffer.
    destruct Hform as [[Hb ->] | [Hb ->]].
    - rewrite _decode_long_string by lia.
      replace (b - 0xb6) with (1 + (b - 0xb7)) by lia.
      rewrite <- Hfield, safeParseInt_leading_zero.
      eexists; split; reflexivity.
    - rewrite _decode_long_list by lia.
      replace (b - 0xf6) with (1 + (b - 0xf7)) by lia.
      rewrite <- Hfield, safeParseInt_leading_zero.
      eexists; split; reflexivity. }
  split; [exact Hcanon | split; [exact Hzero |]].
  destruct (Z.eq_dec (hd 0 field) 0) as [Hhd | Hhd].
  - destruct (Hzero Hhd) as (msg & E & _). eauto.
  - destruct (Hcanon Hhd) as (msg & E & _). eauto.
Qed.

Lemma decode_truncated_long_form_witness :
  fails_with (decode 1 (JBuffer [0xb8; 0x38; 0x61; 0x62])) TruncatedInput /\
  fails_with (decode 1 (JBuffer [0xf9; 0x01; 0x00; 0xc0])) TruncatedInput /\
  fails_with (decode 1 (JBuffer [0xb9; 0x00; 0x38])) RedundantLengthBytes.
Proof.
  split; [| split].
  - apply (decode_truncated_long_form 0 0xb8 1 [0x38; 0x61; 0x62] [0x38]).
    + left. split; [lia | reflexivity].
    + reflexivity.
    + repeat constructor; unfold is_byte; lia.
    + discriminate.
    + vm_compute; reflexivity.
    + simpl; lia.
  - apply (decode_truncated_long_form 0 0xf9 2 [0x01; 0x00; 0xc0] [0x01; 0x00]).
    + right. split; [lia | reflexivity].
    + reflexivity.
    + repeat constructor; unfold is_byte; lia.
    + discriminate.
    + vm_compute; reflexivity.
    + simpl; lia.
  - apply (decode_truncated_long_form 0 0xb9 2 [0x00; 0x38] [0x00; 0x38]).
    + left. split; [lia | reflexivity].
    + reflexivity.
    + repeat constructor; unfold is_byte; lia.
    + discriminate.
    + vm_compute; reflexivity.
    + reflexivity.
Defined.

(** ** Lists *)





(** A loop that does not end: the child [0xb8], a long string without its
    length field, is decoded to the empty string and leaves the span as it
    was. *)
Lemma decode_loop_without_progress (fuel : nat) (acc : list JSValue) :
  decode_loop fuel [0xb8] acc = OutOfFuel.
Proof.
  revert acc. induction fuel as [| fuel IH]; intros acc; [reflexivity |].
  rewrite decode_loop_cons. destruct fuel as [| fuel]; [reflexivity |].
  change (_decode (S fuel) [0xb8]) with (@Ok (JSValue * Buffer) (JBuffer [], [0xb8])).
  cbn [bind fst snd]. apply IH.
Qed.

(** ** Encoding items *)

Lemma encode_array (items : list JSValue) :
  encode (JArray items) =
    (buf <- encode_each items ;; Ok (encodeLength (buf_length buf) 192 ++ buf)).
Proof.
  reflexivity.
Qed.

Lemma encode_buffer (b : Buffer) :
  encode (JBuffer b) =
    Ok (if (buf_length b =? 1) && num_ltb (buf_get b 0) (Int 128) then b
        else encodeLength (buf_length b) 128 ++ b).
Proof. cbn [encode toBuffer bind]. destruct (_ && _); reflexivity. Qed.

Lemma JSValue_nested_ind (P : JSValue -> Prop) :
  (forall b, P (JBuffer b)) -> (forall s, P (JString s)) ->
  (forall n, P (JNumber n)) -> (forall t, P (JFloat t)) ->
  P JNull -> P JUndefined ->
  (forall b, P (JBool b)) ->
  (forall items, Forall P items -> P (JArray items)) ->
  (forall ds, P (JBigNum ds)) -> P JObject ->
  forall v, P v.
Proof.
  intros Hbuf Hstr Hnum Hfloat Hnull Hundef Hbool Harr Hbn Hobj.
  fix IH 1. intros [b | s | n | t | | | b | items | ds |].
  - apply Hbuf.
  - apply Hstr.
  - apply Hnum.
  - apply Hfloat.
  - apply Hnull.
  - apply Hundef.
  - apply Hbool.
  - apply Harr. induction items as [| x items IHitems]; constructor.
    + apply IH.
    + apply IHitems.
  - apply Hbn.
  - apply Hobj.
Qed.

Lemma is_item_bytes (b : Buffer) : is_item (JBuffer b) = true -> Forall is_byte b.
Proof.
  cbn [is_item]. rewrite forallb_forall, Forall_forall.
  intros H z Hz. specialize (H z Hz). unfold is_byte. lia.
Qed.

Lemma encodeLength_nonempty (len offset : Z) :
  0 <= len < 2 ^ 64 -> 0 <= offset -> offset + 63 <= 255 ->
  exists z p, encodeLength len offset = z :: p.
Proof.
  intros Hlen Ho1 Ho2. destruct (Z.lt_ge_cases len 56).
  - rewrite encodeLength_short by lia. eauto.
  - destruct (encodeLength_long len offset) as (z & lb & -> & _); eauto; lia.
Qed.

(** An encoding is never empty. *)
Lemma encode_nonempty (x : JSValue) (e : Buffer) :
  is_item x = true -> encode x = Ok e -> buf_length e < 2 ^ 64 ->
  exists z e', e = z :: e'.
Proof.
  intros Hx He Hlen. destruct x; try discriminate Hx.
  - rewrite encode_buffer in He. injection He as <-.
    destruct (_ && _) eqn:E.
    + destruct b as [| z b]; [discriminate E | eauto].
    + rewrite buf_length_app in Hlen.
      pose proof (buf_length_nonneg b).
      pose proof (buf_length_nonneg (encodeLength (buf_length b) 128)).
      destruct (encodeLength_nonempty (buf_length b) 128) as (z & p & ->); try lia.
      cbn [app]. eauto.
  - rewrite encode_array in He.
    destruct (encode_each items) as [buf | |]; try discriminate He.
    cbn [bind] in He. injection He as <-.
    rewrite buf_length_app in Hlen.
    pose proof (buf_length_nonneg buf).
    pose proof (buf_length_nonneg (encodeLength (buf_length buf) 192)).
    destruct (encodeLength_nonempty (buf_length buf) 192) as (z & p & ->); try lia.
    cbn [app]. eauto.
Qed.

(** Every item has an encoding. *)
Lemma encode_item_ok (x : JSValue) :
  is_item x = true -> exists e, encode x = Ok e.
Proof.
  induction x as [b | | | | | | | items IH | |] using JSValue_nested_ind;
    try discriminate.
  - intros _. rewrite encode_buffer. eauto.
  - cbn [is_item]. intros Hitems. rewrite encode_array.
    assert (H : exists buf, encode_each items = Ok buf).
    { induction IH as [| x items Hx _ IHitems]; [cbn; eauto |].
      cbn [forallb] in Hitems. apply andb_true_iff in Hitems as [H1 H2].
      destruct (Hx H1) as (o & Ho). destruct (IHitems H2) as (r & Hr).
      cbn [encode_each]. rewrite Ho, Hr. cbn [bind]. eauto. }
    destruct H as (buf & ->). cbn [bind]. eauto.
Qed.

Lemma slice_mid_eq (input pre mid post : Buffer) (s e : Z) :
  input = pre ++ mid ++ post -> s = buf_length pre -> e = s + buf_length mid ->
  slice input (Int s) (Int e) = mid.
Proof. intros -> -> ->. apply slice_app_mid. Qed.

Lemma slice_from_eq (input pre post : Buffer) (s : Z) :
  input = pre ++ post -> s = buf_length pre -> slice_from input (Int s) = post.
Proof. intros -> ->. apply slice_from_app. Qed.

Lemma buf_length_nil : buf_length [] = 0.
Proof. reflexivity. Qed.

Ltac buf_arith :=
  repeat first [ rewrite buf_length_app in *
               | rewrite buf_length_cons in *
               | rewrite buf_length_nil in * ];
  lia.

Ltac list_shape := cbn [app]; rewrite <- ?app_assoc; cbn [app]; reflexivity.

(** ** Round trip through [_decode] *)

Lemma decode_loop_encode_each (items : list JSValue) :
  Forall (fun x => is_item x = true -> decodes_back x) items ->
  forallb is_item items = true ->
  forall e, encode_each items = Ok e -> buf_length e < 2 ^ 64 ->
  exists n, forall fuel acc,
      (n <= fuel)%nat -> decode_loop fuel e acc = Ok (acc ++ items).
Proof.
  induction 1 as [| x items Hx _ IH]; intros Hitems e He Hlen.
  - injection He as <-. exists 0%nat. intros fuel acc _.
    rewrite decode_loop_nil, app_nil_r. reflexivity.
  - cbn [forallb] in Hitems. apply andb_true_iff in Hitems as [Hix Hil].
    cbn [encode_each] in He.
    destruct (encode x) as [o | |] eqn:Ho; try discriminate He.
    destruct (encode_each items) as [r | |] eqn:Hr; try discriminate He.
    cbn [bind] in He. injection He as <-.
    pose proof (buf_length_nonneg o). pose proof (buf_length_nonneg r).
    destruct (Hx Hix o Ho ltac:(buf_arith)) as (n1 & Hn1).
    destruct (IH Hil r eq_refl ltac:(buf_arith)) as (n2 & Hn2).
    destruct (encode_nonempty x o Hix Ho ltac:(buf_arith)) as (z & o' & ->).
    exists (S (Nat.max n1 n2)). intros fuel acc Hfuel.
    destruct fuel as [| fuel]; [lia |].
    change ((z :: o') ++ r) with (z :: (o' ++ r)).
    rewrite decode_loop_cons.
    change (z :: (o' ++ r)) with ((z :: o') ++ r).
    rewrite Hn1 by lia. cbn [bind fst snd].
    rewrite Hn2 by lia. rewrite <- app_assoc. reflexivity.
Qed.

Lemma _decode_encode_bytes (b : Buffer) :
  Forall is_byte b -> decodes_back (JBuffer b).
Proof.
  intros Hb e He Hlen. rewrite encode_buffer in He. injection He as <-.
  exists 1%nat. intros fuel rest Hfuel. destruct fuel as [| fuel]; [lia |].
  pose proof (buf_length_nonneg b) as Hnn.
  destruct ((buf_length b =? 1) && num_ltb (buf_get b 0) (Int 128)) eqn:Hcond.
  - apply andb_true_iff in Hcond as [H1 H2].
    destruct b as [| z [| z' b]]; try discriminate H1.
    + cbn [buf_get nth_error num_ltb] in H2. apply Z.ltb_lt in H2.
      cbn [app]. apply _decode_single. lia.
    + rewrite !buf_length_cons in H1. pose proof (buf_length_nonneg b).
      apply Z.eqb_eq in H1. lia.
  - pose proof (buf_length_nonneg (encodeLength (buf_length b) 128)).
    destruct (Z.lt_ge_cases (buf_length b) 56) as [Hshort | Hlong].
    + rewrite encodeLength_short by lia. cbn [app].
      rewrite _decode_short_string by lia. cbv zeta.
      assert (Hdata : (if buf_length b + 128 =? 128 then []
                       else slice ((buf_length b + 128) :: b ++ rest) (Int 1)
                              (Int (buf_length b + 128 - 127))) = b).
      { destruct (Z.eqb_spec (buf_length b + 128) 128) as [E | _].
        - symmetry. apply buf_length_zero. lia.
        - apply (slice_mid_eq _ [buf_length b + 128] b rest);
            [list_shape | reflexivity | buf_arith]. }
      rewrite Hdata.
      rewrite (slice_from_eq _ ((buf_length b + 128) :: b) rest);
        [| list_shape | buf_arith].
      destruct (Z.eqb_spec (buf_length b + 128 - 127) 2) as [E | _]; [| reflexivity].
      destruct b as [| z [| z' b']].
      * discriminate E.
      * cbn [andb]. change (buf_length [z] =? 1) with true in Hcond.
        cbn [andb] in Hcond. rewrite Hcond. reflexivity.
      * rewrite !buf_length_cons in E. pose proof (buf_length_nonneg b'). lia.
    + rewrite buf_length_app in Hlen.
      destruct (encodeLength_long (buf_length b) 128)
        as (z & lb & -> & Hk & _ & _ & _ & Hparse); try lia.
      pose proof (buf_length_nonneg lb) as Hlb. rewrite buf_length_cons in Hk.
      cbn [app].
      rewrite _decode_long_string by (rewrite buf_length_cons; lia).
      rewrite (slice_mid_eq _ [128 + 55 + buf_length (z :: lb)] (z :: lb) (b ++ rest));
        [| list_shape | reflexivity | buf_arith].
      rewrite Hparse. cbn [bind num_add]. cbv zeta.
      rewrite (slice_mid_eq _ ((128 + 55 + buf_length (z :: lb)) :: z :: lb) b rest);
        [| list_shape | buf_arith | buf_arith].
      cbn [num_ltb]. rewrite Z.ltb_irrefl.
      rewrite (slice_from_eq _ (((128 + 55 + buf_length (z :: lb)) :: z :: lb) ++ b) rest);
        [reflexivity | list_shape | buf_arith].
Qed.

Lemma _decode_encode_array (items : list JSValue) :
  Forall (fun x => is_item x = true -> decodes_back x) items ->
  forallb is_item items = true ->
  decodes_back (JArray items).
Proof.
  intros HF Hitems e He Hlen. rewrite encode_array in He.
  destruct (encode_each items) as [payload | |] eqn:Hp; try discriminate He.
  cbn [bind] in He. injection He as <-.
  pose proof (buf_length_nonneg payload) as Hnn.
  pose proof (buf_length_nonneg (encodeLength (buf_length payload) 192)).
  rewrite buf_length_app in Hlen.
  destruct (decode_loop_encode_each items HF Hitems payload Hp ltac:(lia)) as (n & Hn).
  exists (S n). intros fuel rest Hfuel. destruct fuel as [| fuel]; [lia |].
  destruct (Z.lt_ge_cases (buf_length payload) 56) as [Hshort | Hlong].
  - rewrite encodeLength_short by lia. cbn [app].
    rewrite _decode_short_list by lia.
    rewrite (slice_mid_eq _ [buf_length payload + 192] payload rest);
      [| list_shape | reflexivity | buf_arith].
    rewrite Hn by lia. cbn [bind app].
    rewrite (slice_from_eq _ ((buf_length payload + 192) :: payload) rest);
      [reflexivity | list_shape | buf_arith].
  - destruct (encodeLength_long (buf_length payload) 192)
      as (z & lb & -> & Hk & _ & _ & _ & Hparse); try lia.
    pose proof (buf_length_nonneg lb) as Hlb. rewrite buf_length_cons in Hk.
    pose proof (buf_length_nonneg rest) as Hrest.
    cbn [app].
    rewrite _decode_long_list by (rewrite buf_length_cons; lia).
    rewrite (slice_mid_eq _ [192 + 55 + buf_length (z :: lb)] (z :: lb) (payload ++ rest));
      [| list_shape | reflexivity | buf_arith].
    rewrite Hparse. cbn [bind num_add num_gtb num_ltb]. cbv zeta.
    match goal with
    | |- context [Z.ltb ?l ?r] => destruct (Z.ltb_spec l r) as [Hgt | _]
    end; [exfalso; buf_arith |].
    rewrite (slice_mid_eq _ ((192 + 55 + buf_length (z :: lb)) :: z :: lb) payload rest);
      [| list_shape | buf_arith | buf_arith].
    destruct (Z.eqb_spec (buf_length payload) 0) as [E | _]; [exfalso; lia |].
    rewrite Hn by lia. cbn [bind app].
    rewrite (slice_from_eq _ (((192 + 55 + buf_length (z :: lb)) :: z :: lb) ++ payload) rest);
      [reflexivity | list_shape | buf_arith].
Qed.

(** Every item that [encode] encodes, [_decode] reads back, leaving the
    bytes that follow the encoding as the remainder. *)
Lemma _decode_encode (x : JSValue) : is_item x = true -> decodes_back x.
Proof.
  induction x as [b | | | | | | | items IH | |] using JSValue_nested_ind;
    try discriminate.
  - intros Hx. apply _decode_encode_bytes, is_item_bytes, Hx.
  - intros Hx. apply _decode_encode_array; assumption.
Qed.

(** ** Fuel *)

(** An outcome other than [OutOfFuel] does not depend on the budget. *)
Lemma fuel_monotone (fuel : nat) :
  (forall input r, _decode fuel input = r -> r <> OutOfFuel ->
                   forall fuel', (fuel <= fuel')%nat -> _decode fuel' input = r) /\
  (forall span acc r, decode_loop fuel span acc = r -> r <> OutOfFuel ->
                      forall fuel', (fuel <= fuel')%nat -> decode_loop fuel' span acc = r).
Proof.
  induction fuel as [| fuel [IHd IHl]].
  - split.
    + intros input r <- Hr. now contradiction Hr.
    + intros [| z span] acc r <- Hr fuel' _.
      * now rewrite !decode_loop_nil.
      * exfalso. apply Hr. cbn [decode_loop]. rewrite buf_length_cons.
        destruct (Z.eqb_spec (1 + buf_length span) 0) as [E | _]; [| reflexivity].
        pose proof (buf_length_nonneg span). lia.
  - assert (Hloop : forall span acc r,
               decode_loop (S fuel) span acc = r -> r <> OutOfFuel ->
               forall fuel', (S fuel <= fuel')%nat -> decode_loop fuel' span acc = r).
    { intros [| z span] acc r <- Hr fuel' Hle.
      - now rewrite !decode_loop_nil.
      - destruct fuel' as [| fuel']; [lia |].
        rewrite !decode_loop_cons in *.
        destruct (_decode fuel (z :: span)) as [[d rem] | msg |] eqn:Hd.
        + rewrite (IHd _ _ Hd ltac:(discriminate) fuel' ltac:(lia)).
          cbn [bind fst snd] in *. apply IHl; [reflexivity | assumption | lia].
        + rewrite (IHd _ _ Hd ltac:(discriminate) fuel' ltac:(lia)). reflexivity.
        + now contradiction Hr. }
    split; [| exact Hloop].
    intros [| b rest] r <- Hr fuel' Hle; (destruct fuel' as [| fuel']; [lia |]).
    + reflexivity.
    + assert (Hbind : forall (span : Buffer) (k : list JSValue -> result (JSValue * Buffer)),
                 (decoded <- decode_loop fuel span [] ;; k decoded) <> OutOfFuel ->
                 decode_loop fuel' span [] = decode_loop fuel span []).
      { intros span k Hk. apply IHl; [reflexivity | | lia].
        intros E. rewrite E in Hk. now apply Hk. }
      destruct (Z.le_gt_cases b 0x7f); [now rewrite !_decode_single by lia |].
      destruct (Z.le_gt_cases b 0xb7); [now rewrite !_decode_short_string by lia |].
      destruct (Z.le_gt_cases b 0xbf); [now rewrite !_decode_long_string by lia |].
      destruct (Z.le_gt_cases b 0xf7).
      * rewrite !_decode_short_list in * by lia.
        now rewrite (Hbind _ _ Hr).
      * rewrite !_decode_long_list in * by lia.
        destruct (safeParseInt _) as [length | msg |]; try reflexivity.
        cbn [bind] in *. cbv zeta in *.
        destruct (num_gtb _ _); [reflexivity |].
        destruct (_ =? 0); [reflexivity |].
        now rewrite (Hbind _ _ Hr).
Qed.

Lemma _decode_more_fuel (fuel fuel' : nat) (input : Buffer) (r : result (JSValue * Buffer)) :
  _decode fuel input = r -> r <> OutOfFuel -> (fuel <= fuel')%nat ->
  _decode fuel' input = r.
Proof. intros H Hr Hle. exact (proj1 (fuel_monotone fuel) input r H Hr fuel' Hle). Qed.

Lemma decode_loop_more_fuel (fuel fuel' : nat) (span : Buffer) (acc : list JSValue)
      (r : result (list JSValue)) :
  decode_loop fuel span acc = r -> r <> OutOfFuel -> (fuel <= fuel')%nat ->
  decode_loop fuel' span acc = r.
Proof. intros H Hr Hle. exact (proj2 (fuel_monotone fuel) span acc r H Hr fuel' Hle). Qed.

(** ** Top-level decode of an encoding *)

(** C1, where the code departs from the claim.  [_decode] reads the
    encoding [e] of every item [x] back as [x] with nothing left; but
    top-level [decode] then throws 'invalid remainder', because it rejects
    the empty remainder instead of the non-empty one.  So
    [decode(encode(x))] returns [x] for no item.  (Every item has an
    encoding: [encode_item_ok].) *)
Theorem decode_encode_invalid_remainder (x : JSValue) (e : Buffer) :
  is_item x = true -> encode x = Ok e ->
  buf_length e <= MAX_SAFE_INTEGER ->
  exists n, forall fuel,
      (n <= fuel)%nat ->
      _decode fuel e = Ok (x, []) /\
      decode fuel (JBuffer e) = Throw "invalid remainder".
Proof.
  intros Hx He Hlen.
  apply max_safe_below_2_64 in Hlen.
  destruct (_decode_encode x Hx e He Hlen) as (n & Hn).
  destruct (encode_nonempty x e Hx He Hlen) as (z & e' & ->).
  exists n. intros fuel Hfuel.
  specialize (Hn fuel [] Hfuel). rewrite app_nil_r in Hn.
  split; [exact Hn |]. rewrite decode_buffer, Hn. reflexivity.
Qed.

Lemma decode_encode_invalid_remainder_witness :
  is_item (JArray [JBuffer [0x63; 0x61; 0x74]; JBuffer [0x64; 0x6f; 0x67]]) = true /\
  encode (JArray [JBuffer [0x63; 0x61; 0x74]; JBuffer [0x64; 0x6f; 0x67]]) =
    Ok [0xc8; 0x83; 0x63; 0x61; 0x74; 0x83; 0x64; 0x6f; 0x67] /\
  exists n, forall fuel,
      (n <= fuel)%nat ->
      _decode fuel [0xc8; 0x83; 0x63; 0x61; 0x74; 0x83; 0x64; 0x6f; 0x67] =
        Ok (JArray [JBuffer [0x63; 0x61; 0x74]; JBuffer [0x64; 0x6f; 0x67]], []) /\
      decode fuel (JBuffer [0xc8; 0x83; 0x63; 0x61; 0x74; 0x83; 0x64; 0x6f; 0x67]) =
        Throw "invalid remainder".
Proof.
  split; [reflexivity | split; [reflexivity |]].
  apply (decode_encode_invalid_remainder
           (JArray [JBuffer [0x63; 0x61; 0x74]; JBuffer [0x64; 0x6f; 0x67]])).
  - reflexivity.
  - reflexivity.
  - vm_compute. discriminate.
Defined.

(** C2, where the code departs from the claim.  The test on the remainder is
    inverted: a buffer that holds the encoding of an item followed by at
    least one more byte decodes to that item, the extra bytes being dropped,
    and a buffer that holds exactly the encoding fails with TrailingBytes
    ('invalid remainder'). *)
Theorem decode_remainder_test_inverted (x : JSValue) (e extra : Buffer) :
  is_item x = true -> encode x = Ok e ->
  buf_length (e ++ extra) <= MAX_SAFE_INTEGER ->
  extra <> [] ->
  exists n, forall fuel,
      (n <= fuel)%nat ->
      decode fuel (JBuffer (e ++ extra)) = Ok x /\
      fails_with (decode fuel (JBuffer e)) TrailingBytes.
Proof.
  intros Hx He Hlen Hextra. apply max_safe_below_2_64 in Hlen.
  rewrite buf_length_app in Hlen. pose proof (buf_length_nonneg extra).
  assert (Hlen' : buf_length e < 2 ^ 64) by lia.
  destruct (_decode_encode x Hx e He Hlen') as (n & Hn).
  destruct (encode_nonempty x e Hx He Hlen') as (z & e' & ->).
  exists n. intros fuel Hfuel. split.
  - specialize (Hn fuel extra Hfuel).
    cbn [app] in *. rewrite decode_buffer, Hn. cbn [bind fst snd].
    destruct extra as [| y extra]; [now contradiction Hextra |].
    rewrite buf_length_cons.
    destruct (Z.eqb_spec (1 + buf_length extra) 0) as [E | _]; [| reflexivity].
    pose proof (buf_length_nonneg extra). lia.
  - specialize (Hn fuel [] Hfuel). rewrite app_nil_r in Hn.
    rewrite decode_buffer, Hn. eexists; split; reflexivity.
Qed.

Lemma decode_remainder_test_inverted_witness :
  is_item (JBuffer [0x64; 0x6f; 0x67]) = true /\
  encode (JBuffer [0x64; 0x6f; 0x67]) = Ok [0x83; 0x64; 0x6f; 0x67] /\
  exists n, forall fuel,
      (n <= fuel)%nat ->
      decode fuel (JBuffer ([0x83; 0x64; 0x6f; 0x67] ++ [0x00])) =
        Ok (JBuffer [0x64; 0x6f; 0x67]) /\
      fails_with (decode fuel (JBuffer [0x83; 0x64; 0x6f; 0x67])) TrailingBytes.
Proof.
  split; [reflexivity | split; [reflexivity |]].
  apply (decode_remainder_test_inverted (JBuffer [0x64; 0x6f; 0x67])).
  - reflexivity.
  - reflexivity.
  - vm_compute. discriminate.
  - discriminate.
Defined.

(** ** The payload of a list *)

Lemma _decode_list_form (fuel : nat) (b : Z) (rest : Buffer) :
  0xc0 <= b ->
  _decode (S fuel) (b :: rest) =
    (sr <- payload_span (b :: rest) ;;
     decoded <- decode_loop fuel (fst sr) [] ;;
     Ok (JArray decoded, snd sr)).
Proof.
  intros Hb. unfold payload_span. cbn [buf_get nth_error num_leb num_sub].
  destruct (Z.leb_spec b 0xf7).
  - rewrite _decode_short_list by lia. reflexivity.
  - rewrite _decode_long_list by lia.
    destruct (safeParseInt _) as [length | msg |]; try reflexivity.
    cbn [bind]. cbv zeta.
    destruct (num_gtb _ _); [reflexivity |].
    destruct (_ =? 0); reflexivity.
Qed.

Lemma adjustOffset_range (n : number) (len : Z) :
  0 <= len -> 0 <= adjustOffset n len <= len.
Proof.
  intros Hlen. unfold adjustOffset. destruct n as [o |]; [| lia].
  destruct (Z.eqb_spec o 0); [lia |].
  destruct (Z.ltb_spec o 0); [lia |].
  destruct (Z.ltb_spec o len); lia.
Qed.

(** [b.slice(start)] is a suffix of [b]. *)
Lemma slice_from_suffix (b : Buffer) (n : number) :
  exists consumed, b = consumed ++ slice_from b n.
Proof.
  unfold slice_from, slice.
  pose proof (buf_length_nonneg b) as Hlen.
  pose proof (adjustOffset_range n _ Hlen) as Hs.
  pose proof (adjustOffset_range (Int (buf_length b)) _ Hlen) as He.
  set (s := adjustOffset n (buf_length b)) in *.
  assert (Hend : adjustOffset (Int (buf_length b)) (buf_length b) = buf_length b).
  { rewrite adjustOffset_nonneg by lia. lia. }
  rewrite Hend.
  exists (firstn (Z.to_nat s) b).
  rewrite (firstn_all2 (skipn (Z.to_nat s) b)).
  - symmetry. apply firstn_skipn.
  - rewrite length_skipn. unfold buf_length in *.
    destruct (Z.ltb_spec s (Z.of_nat (List.length b))); lia.
Qed.

Lemma _decode_remainder_suffix (fuel : nat) (input rem : Buffer) (d : JSValue) :
  _decode fuel input = Ok (d, rem) -> exists consumed, input = consumed ++ rem.
Proof.
  destruct fuel as [| fuel]; [discriminate |].
  destruct input as [| b rest]; [discriminate |].
  destruct (Z.le_gt_cases b 0x7f).
  { rewrite _decode_single by lia. intros [= <- <-]. now exists [b]. }
  destruct (Z.le_gt_cases b 0xb7).
  { rewrite _decode_short_string by lia. cbv zeta.
    destruct (_ && _); [discriminate |]. intros [= <- <-]. apply slice_from_suffix. }
  destruct (Z.le_gt_cases b 0xbf).
  { rewrite _decode_long_string by lia.
    destruct (safeParseInt _) as [length | |]; try discriminate.
    cbn [bind]. cbv zeta. destruct (num_ltb _ _); [discriminate |].
    intros [= <- <-]. apply slice_from_suffix. }
  rewrite _decode_list_form by lia. unfold payload_span.
  cbn [buf_get nth_error num_leb num_sub].
  destruct (b <=? 247).
  - cbn [bind fst snd]. destruct (decode_loop _ _ _); try discriminate.
    cbn [bind]. intros [= <- <-]. apply slice_from_suffix.
  - destruct (safeParseInt _) as [length | |]; try discriminate.
    cbn [bind]. cbv zeta. destruct (num_gtb _ _); [discriminate |].
    destruct (_ =? 0); [discriminate |].
    cbn [bind fst snd]. destruct (decode_loop _ _ _); try discriminate.
    cbn [bind]. intros [= <- <-]. apply slice_from_suffix.
Qed.

Lemma decode_loop_children (fuel : nat) (span : Buffer) (acc items : list JSValue) :
  decode_loop fuel span acc = Ok items ->
  exists ds, items = acc ++ ds /\ children_of span ds.
Proof.
  revert span acc. induction fuel as [| fuel IH]; intros [| z span] acc H.
  - rewrite decode_loop_nil in H. injection H as <-.
    exists []. rewrite app_nil_r. split; [reflexivity | constructor].
  - exfalso. cbn [decode_loop] in H. rewrite buf_length_cons in H.
    destruct (Z.eqb_spec (1 + buf_length span) 0) as [E | _]; [| discriminate H].
    pose proof (buf_length_nonneg span). lia.
  - rewrite decode_loop_nil in H. injection H as <-.
    exists []. rewrite app_nil_r. split; [reflexivity | constructor].
  - rewrite decode_loop_cons in H.
    destruct (_decode fuel (z :: span)) as [[d rem] | msg |] eqn:Hd; try discriminate H.
    cbn [bind fst snd] in H. apply IH in H. destruct H as (ds & -> & Hds).
    exists (d :: ds). rewrite <- app_assoc. split; [reflexivity |].
    destruct (_decode_remainder_suffix _ _ _ _ Hd) as (consumed & Hc).
    exact (children_next fuel (z :: span) consumed rem d ds
             ltac:(discriminate) Hd Hc Hds).
Qed.

Lemma decode_loop_child_fails (fuel : nat) (span : Buffer) (acc : list JSValue)
      (msg : string) :
  decode_loop fuel span acc = Throw msg -> child_fails span msg.
Proof.
  revert span acc. induction fuel as [| fuel IH]; intros [| z span] acc H.
  - rewrite decode_loop_nil in H. discriminate H.
  - cbn [decode_loop] in H. destruct (_ =? 0); discriminate H.
  - rewrite decode_loop_nil in H. discriminate H.
  - rewrite decode_loop_cons in H.
    destruct (_decode fuel (z :: span)) as [[d rem] | msg' |] eqn:Hd; try discriminate H.
    + cbn [bind fst snd] in H. apply IH in H.
      exact (child_fails_later fuel (z :: span) rem d msg ltac:(discriminate) Hd H).
    + cbn [bind] in H. injection H as ->.
      exact (child_fails_now fuel (z :: span) msg ltac:(discriminate) Hd).
Qed.

Lemma children_decode_loop (span : Buffer) (ds : list JSValue) :
  children_of span ds ->
  exists n, forall fuel acc,
      (n <= fuel)%nat -> decode_loop fuel span acc = Ok (acc ++ ds).
Proof.
  induction 1 as [| f span consumed rem d ds Hne Hd _ _ (n & IH)].
  - exists 0%nat. intros fuel acc _. now rewrite decode_loop_nil, app_nil_r.
  - exists (S (Nat.max f n)). intros fuel acc Hfuel.
    destruct fuel as [| fuel]; [lia |].
    destruct span as [| z span]; [now contradiction Hne |].
    rewrite decode_loop_cons.
    rewrite (_decode_more_fuel f fuel _ _ Hd ltac:(discriminate) ltac:(lia)).
    cbn [bind fst snd]. rewrite IH by lia. now rewrite <- app_assoc.
Qed.

Lemma child_fails_decode_loop (span : Buffer) (msg : string) :
  child_fails span msg ->
  exists n, forall fuel acc,
      (n <= fuel)%nat -> decode_loop fuel span acc = Throw msg.
Proof.
  induction 1 as [f span msg Hne Hd | f span rem d msg Hne Hd _ (n & IH)].
  - exists (S f). intros fuel acc Hfuel.
    destruct fuel as [| fuel]; [lia |].
    destruct span as [| z span]; [now contradiction Hne |].
    rewrite decode_loop_cons.
    rewrite (_decode_more_fuel f fuel _ _ Hd ltac:(discriminate) ltac:(lia)).
    reflexivity.
  - exists (S (Nat.max f n)). intros fuel acc Hfuel.
    destruct fuel as [| fuel]; [lia |].
    destruct span as [| z span]; [now contradiction Hne |].
    rewrite decode_loop_cons.
    rewrite (_decode_more_fuel f fuel _ _ Hd ltac:(discriminate) ltac:(lia)).
    cbn [bind fst snd]. apply IH. lia.
Qed.

(** A short string whose declared length [k] exceeds the bytes that follow
    is cut to those bytes. *)
Lemma _decode_short_string_overrun (fuel : nat) (k : Z) (payload : Buffer) :
  1 <= k <= 55 -> buf_length payload < k ->
  _decode (S fuel) ((0x80 + k) :: payload) = Ok (JBuffer payload, []).
Proof.
  intros Hk Hlen. rewrite _decode_short_string by lia. cbv zeta.
  destruct (Z.eqb_spec (0x80 + k) 0x80) as [E | _]; [lia |].
  pose proof (buf_length_nonneg payload) as Hnn. unfold buf_length in *.
  rewrite slice_nonneg, slice_from_nonneg by lia.
  replace (Z.to_nat 1) with 1%nat by reflexivity.
  replace (Z.to_nat (128 + k - 127)) with (S (Z.to_nat k)) by lia.
  cbn [skipn].
  rewrite firstn_all2, skipn_all2 by lia.
  destruct (Z.eqb_spec (128 + k - 127) 2) as [E | _]; [| reflexivity].
  assert (payload = []) as -> by (apply length_zero_iff_nil; lia).
  reflexivity.
Qed.

(** C4, against the claim: in [[0xc2, 0x83, 0x61]] the child [0x83]
    declares three bytes and the payload span of the list holds one.  Decode
    raises no InvalidListFraming: the child comes back cut to [[0x61]]. *)
Lemma list_child_overrun_not_rejected :
  _decode 3 [0xc2; 0x83; 0x61] = Ok (JArray [JBuffer [0x61]], []) /\
  decode 3 (JBuffer [0xc2; 0x83; 0x61; 0x00]) = Ok (JArray [JBuffer [0x61]]) /\
  forall fuel, ~ fails_with (decode fuel (JBuffer [0xc2; 0x83; 0x61; 0x00]))
                            InvalidListFraming.
Proof.
  split; [reflexivity | split; [reflexivity |]].
  intros fuel (msg & H & _). rewrite decode_buffer in H.
  destruct (_decode fuel [0xc2; 0x83; 0x61; 0x00]) as [[d rem] | msg' |] eqn:Hd.
  - assert (Hd3 : _decode 3 [0xc2; 0x83; 0x61; 0x00] = Ok (JArray [JBuffer [0x61]], [0x00]))
      by reflexivity.
    destruct (Nat.le_ge_cases fuel 3) as [Hle | Hge].
    + rewrite (_decode_more_fuel fuel 3 _ _ Hd ltac:(discriminate) Hle) in Hd3.
      injection Hd3 as -> ->. discriminate H.
    + rewrite (_decode_more_fuel 3 fuel _ _ Hd3 ltac:(discriminate) Hge) in Hd.
      injection Hd as <- <-. discriminate H.
  - assert (Hd3 : _decode 3 [0xc2; 0x83; 0x61; 0x00] = Ok (JArray [JBuffer [0x61]], [0x00]))
      by reflexivity.
    destruct (Nat.le_ge_cases fuel 3) as [Hle | Hge].
    + rewrite (_decode_more_fuel fuel 3 _ _ Hd ltac:(discriminate) Hle) in Hd3.
      discriminate Hd3.
    + rewrite (_decode_more_fuel 3 fuel _ _ Hd3 ltac:(discriminate) Hge) in Hd.
      discriminate Hd.
  - discriminate H.
Qed.

(** * Further properties of the codec *)

(** ** Encoding and the recursive decoder *)

(** X1.  [_decode] undoes [encode] in the middle of a stream: applied to
    the encoding of an item followed by any bytes, it returns the item and
    exactly those bytes as the remainder. *)
Theorem _decode_encode_remainder (x : JSValue) (e rest : Buffer) :
  is_item x = true -> encode x = Ok e ->
  buf_length e <= MAX_SAFE_INTEGER ->
  exists n, forall fuel,
      (n <= fuel)%nat -> _decode fuel (e ++ rest) = Ok (x, rest).
Proof.
  intros Hx He Hlen. apply max_safe_below_2_64 in Hlen.
  destruct (_decode_encode x Hx e He Hlen) as (n & Hn).
  exists n. intros fuel Hfuel. apply Hn, Hfuel.
Qed.

Lemma _decode_encode_remainder_witness :
  is_item (JArray [JBuffer []; JArray []]) = true /\
  encode (JArray [JBuffer []; JArray []]) = Ok [0xc2; 0x80; 0xc0] /\
  exists n, forall fuel,
      (n <= fuel)%nat ->
      _decode fuel ([0xc2; 0x80; 0xc0] ++ [0xff; 0x00]) =
        Ok (JArray [JBuffer []; JArray []], [0xff; 0x00]).
Proof.
  split; [reflexivity | split; [reflexivity |]].
  apply (_decode_encode_remainder (JArray [JBuffer []; JArray []])).
  - reflexivity.
  - reflexivity.
  - vm_compute. discriminate.
Defined.

(** X2.  No encoding is the beginning of another one: when the encoding of
    [y] starts with the encoding of [x], the two items are equal and nothing
    follows.  In particular [encode] is injective on items. *)
Theorem encode_prefix_free (x y : JSValue) (e rest : Buffer) :
  is_item x = true -> is_item y = true ->
  encode x = Ok e -> encode y = Ok (e ++ rest) ->
  buf_length (e ++ rest) <= MAX_SAFE_INTEGER ->
  x = y /\ rest = [].
Proof.
  intros Hx Hy Hex Hey Hlen. apply max_safe_below_2_64 in Hlen.
  assert (Hlen' : buf_length e < 2 ^ 64).
  { rewrite buf_length_app in Hlen. pose proof (buf_length_nonneg rest). lia. }
  destruct (_decode_encode x Hx e Hex Hlen') as (n1 & Hn1).
  destruct (_decode_encode y Hy _ Hey Hlen) as (n2 & Hn2).
  specialize (Hn1 (Nat.max n1 n2) rest (Nat.le_max_l _ _)).
  specialize (Hn2 (Nat.max n1 n2) [] (Nat.le_max_r _ _)).
  rewrite app_nil_r in Hn2. rewrite Hn1 in Hn2.
  injection Hn2 as -> ->. split; reflexivity.
Qed.

Lemma encode_prefix_free_witness :
  JBuffer [0x64] = JBuffer [0x64] /\ @nil Z = [].
Proof.
  apply (encode_prefix_free (JBuffer [0x64]) (JBuffer [0x64]) [0x64] []).
  - reflexivity.
  - reflexivity.
  - reflexivity.
  - reflexivity.
  - vm_compute. discriminate.
Defined.

(** X3.  [encode] returns an encoding only for a value built from arrays
    and from the scalars that [toBuffer] converts: a value in which a
    boolean or an object without [toArray] occurs, at any depth, is never
    encoded. *)
Theorem encode_only_encodable (x : JSValue) (e : Buffer) :
  encode x = Ok e -> encodable x = true.
Proof.
  revert e.
  induction x as [b | s | n | t | | | b | items IH | ds |] using JSValue_nested_ind;
    intros e H; try reflexivity; try discriminate H.
  rewrite encode_array in H. cbn [encodable].
  destruct (encode_each items) as [buf | |] eqn:Heach; try discriminate H.
  clear H e. revert buf Heach.
  induction IH as [| x items Hx _ IHitems]; intros buf Heach; [reflexivity |].
  cbn [encode_each] in Heach. cbn [forallb].
  destruct (encode x) as [o | |] eqn:Ho; try discriminate Heach.
  cbn [bind] in Heach.
  destruct (encode_each items) as [r | |] eqn:Hr; try discriminate Heach.
  rewrite (Hx o eq_refl), (IHitems r eq_refl). reflexivity.
Qed.

Lemma encode_only_encodable_witness :
  encode (JArray [JString "cat"; JArray [JNull]]) =
    Ok [0xc6; 0x83; 0x63; 0x61; 0x74; 0xc1; 0x80] /\
  encodable (JArray [JString "cat"; JArray [JNull]]) = true.
Proof.
  assert (H : encode (JArray [JString "cat"; JArray [JNull]]) =
              Ok [0xc6; 0x83; 0x63; 0x61; 0x74; 0xc1; 0x80]) by reflexivity.
  split; [exact H |].
  exact (encode_only_encodable _ _ H).
Defined.

Lemma encodeLength_first_byte (len offset : Z) :
  0 <= len < 2 ^ 64 -> 0 <= offset -> offset + 63 <= 255 ->
  Forall is_byte (encodeLength len offset) /\
  exists z p, encodeLength len offset = z :: p /\ offset <= z <= offset + 63.
Proof.
  intros Hlen Ho1 Ho2. destruct (Z.lt_ge_cases len 56).
  - rewrite encodeLength_short by lia. split.
    + repeat constructor; lia.
    + exists (len + offset), []. split; [reflexivity | lia].
  - destruct (encodeLength_long len offset) as (z & lb & -> & Hk & Hb & _); try lia.
    pose proof (buf_length_nonneg lb). rewrite buf_length_cons in *. split.
    + constructor; [unfold is_byte; lia | exact Hb].
    + eexists _, _. split; [reflexivity | lia].
Qed.

Lemma encode_is_byte (x : JSValue) :
  is_item x = true ->
  forall e, encode x = Ok e -> buf_length e < 2 ^ 64 -> Forall is_byte e.
Proof.
  induction x as [b | | | | | | | items IH | |] using JSValue_nested_ind;
    try discriminate.
  - intros Hx e He Hlen. apply is_item_bytes in Hx.
    rewrite encode_buffer in He. injection He as <-.
    destruct (_ && _); [exact Hx |].
    rewrite buf_length_app in Hlen.
    pose proof (buf_length_nonneg b).
    pose proof (buf_length_nonneg (encodeLength (buf_length b) 128)).
    apply Forall_app. split; [| exact Hx].
    apply encodeLength_first_byte; lia.
  - cbn [is_item]. intros Hitems e He Hlen. rewrite encode_array in He.
    destruct (encode_each items) as [payload | |] eqn:Hp; try discriminate He.
    cbn [bind] in He. injection He as <-.
    rewrite buf_length_app in Hlen.
    pose proof (buf_length_nonneg payload).
    pose proof (buf_length_nonneg (encodeLength (buf_length payload) 192)).
    apply Forall_app. split; [apply encodeLength_first_byte; lia |].
    assert (Hpl : buf_length payload < 2 ^ 64) by lia.
    clear Hlen H0. revert payload Hp Hpl H.
    induction IH as [| x items Hx _ IHitems]; intros payload Hp Hpl Hnn.
    + injection Hp as <-. constructor.
    + cbn [forallb] in Hitems. apply andb_true_iff in Hitems as [H1 H2].
      cbn [encode_each] in Hp.
      destruct (encode x) as [o | |] eqn:Ho; try discriminate Hp.
      destruct (encode_each items) as [r | |] eqn:Hr; try discriminate Hp.
      cbn [bind] in Hp. injection Hp as <-.
      rewrite buf_length_app in Hpl.
      pose proof (buf_length_nonneg o). pose proof (buf_length_nonneg r).
      apply Forall_app. split.
      * apply (Hx H1 o eq_refl). lia.
      * apply (IHitems H2 r eq_refl); lia.
Qed.

(** X4.  The encoding of an item is a sequence of octets that is not empty,
    and its first byte tells what the item is: at most [0xbf] for a byte
    string, at least [0xc0] for a list. *)
Theorem encode_well_formed (x : JSValue) (e : Buffer) :
  is_item x = true -> encode x = Ok e ->
  buf_length e <= MAX_SAFE_INTEGER ->
  Forall is_byte e /\
  exists z e',
    e = z :: e' /\
    match x with
    | JArray _ => 0xc0 <= z <= 0xff
    | _ => 0 <= z <= 0xbf
    end.
Proof.
  intros Hx He Hlen. apply max_safe_below_2_64 in Hlen.
  split; [exact (encode_is_byte x Hx e He Hlen) |].
  destruct x; try discriminate Hx.
  - apply is_item_bytes in Hx.
    rewrite encode_buffer in He. injection He as <-.
    destruct (_ && _) eqn:Hcond.
    + apply andb_true_iff in Hcond as [_ H2].
      destruct b as [| z b]; [discriminate H2 |].
      cbn [buf_get nth_error num_ltb] in H2. apply Z.ltb_lt in H2.
      inversion Hx as [| ? ? Hz _]; subst. unfold is_byte in Hz.
      exists z, b. split; [reflexivity | lia].
    + rewrite buf_length_app in Hlen.
      pose proof (buf_length_nonneg b).
      pose proof (buf_length_nonneg (encodeLength (buf_length b) 128)).
      destruct (encodeLength_first_byte (buf_length b) 128) as (_ & z & p & -> & Hz);
        try lia.
      exists z, (p ++ b). split; [reflexivity | lia].
  - rewrite encode_array in He.
    destruct (encode_each items) as [payload | |]; try discriminate He.
    cbn [bind] in He. injection He as <-.
    rewrite buf_length_app in Hlen.
    pose proof (buf_length_nonneg payload).
    pose proof (buf_length_nonneg (encodeLength (buf_length payload) 192)).
    destruct (encodeLength_first_byte (buf_length payload) 192) as (_ & z & p & -> & Hz);
      try lia.
    exists z, (p ++ payload). split; [reflexivity | lia].
Qed.

Lemma encode_well_formed_witness :
  Forall is_byte [0xc2; 0x80; 0xc0] /\
  exists z e', [0xc2; 0x80; 0xc0] = z :: e' /\ 0xc0 <= z <= 0xff.
Proof.
  apply (encode_well_formed (JArray [JBuffer []; JArray []]) [0xc2; 0x80; 0xc0]).
  - reflexivity.
  - reflexivity.
  - vm_compute. discriminate.
Defined.

(** ** The length inspector on encodings *)

(** X5.  On the encoding of a list, or of a byte string shorter than 56
    bytes, [getLength] answers the length of the encoding. *)
Theorem getLength_encode (x : JSValue) (e : Buffer) :
  is_item x = true -> encode x = Ok e ->
  buf_length e <= MAX_SAFE_INTEGER ->
  (forall b, x = JBuffer b -> buf_length b < 56) ->
  getLength (JBuffer e) = Ok (JNumber (Int (buf_length e))).
Proof.
  intros Hx He Hsafe Hshort. pose proof (max_safe_below_2_64 _ Hsafe) as Hlen.
  destruct x; try discriminate Hx.
  - specialize (Hshort b eq_refl). apply is_item_bytes in Hx.
    rewrite encode_buffer in He. injection He as <-.
    pose proof (buf_length_nonneg b).
    destruct (_ && _) eqn:Hcond.
    + apply andb_true_iff in Hcond as [H1 H2].
      destruct b as [| z b]; [discriminate H2 |].
      cbn [buf_get nth_error num_ltb] in H2. apply Z.ltb_lt in H2.
      rewrite getLength_single_byte by lia. now rewrite buf_length_cons.
    + rewrite encodeLength_short by lia. cbn [app].
      rewrite (proj1 (getLength_short_forms _ _)) by lia.
      rewrite buf_length_cons. do 3 f_equal. lia.
  - rewrite encode_array in He.
    destruct (encode_each items) as [payload | |]; try discriminate He.
    cbn [bind] in He. injection He as <-.
    rewrite buf_length_app in Hlen, Hsafe.
    pose proof (buf_length_nonneg payload).
    pose proof (buf_length_nonneg (encodeLength (buf_length payload) 192)).
    destruct (Z.lt_ge_cases (buf_length payload) 56).
    + rewrite encodeLength_short by lia. cbn [app].
      rewrite (proj2 (getLength_short_forms _ _)) by lia.
      rewrite buf_length_cons. do 3 f_equal. lia.
    + destruct (encodeLength_long (buf_length payload) 192)
        as (z & lb & Henc & Hk & Hb & Hz & Hv & _); try lia.
      rewrite Henc in *.
      pose proof (buf_length_nonneg lb). rewrite buf_length_cons in Hk.
      cbn [app].
      rewrite (getLength_long_list _ _ (z :: lb)).
      * do 3 f_equal. rewrite Hv. buf_arith.
      * buf_arith.
      * symmetry.
        apply (slice_mid_eq _ [192 + 55 + buf_length (z :: lb)] (z :: lb) payload);
          [list_shape | reflexivity | buf_arith].
      * exact Hb.
      * exact Hz.
      * rewrite Hv. buf_arith.
Qed.

Lemma getLength_encode_witness :
  getLength (JBuffer [0xc8; 0x83; 0x63; 0x61; 0x74; 0x83; 0x64; 0x6f; 0x67]) =
    Ok (JNumber (Int (buf_length [0xc8; 0x83; 0x63; 0x61; 0x74; 0x83; 0x64; 0x6f; 0x67]))).
Proof.
  apply (getLength_encode
           (JArray [JBuffer [0x63; 0x61; 0x74]; JBuffer [0x64; 0x6f; 0x67]])).
  - reflexivity.
  - reflexivity.
  - vm_compute. discriminate.
  - discriminate.
Defined.

(** ** Length fields *)



(** X7.  A long string or a long list whose length field starts with a zero
    byte is refused with RedundantLengthBytes ('invalid RLP: extra zeros'),
    by top-level [decode] and, for a list, by [getLength] as well. *)
Theorem decode_redundant_length_bytes (fuel : nat) (b : Z) (rest : Buffer) :
  0xb8 <= b <= 0xbf \/ 0xf8 <= b <= 0xff ->
  decode (S fuel) (JBuffer (b :: 0 :: rest)) = Throw "invalid RLP: extra zeros" /\
  fails_with (decode (S fuel) (JBuffer (b :: 0 :: rest))) RedundantLengthBytes /\
  (0xf8 <= b -> getLength (JBuffer (b :: 0 :: rest)) = Throw "invalid RLP: extra zeros").
Proof.
  intros Hb.
  assert (Hfield : forall k, 2 <= k ->
             exists field, slice (b :: 0 :: rest) (Int 1) (Int k) = 0 :: field).
  { intros k Hk. rewrite slice_nonneg by lia.
    replace (Z.to_nat 1) with 1%nat by reflexivity. cbn [skipn].
    replace (Z.to_nat (k - 1)) with (S (Z.to_nat (k - 2))) by lia.
    cbn [firstn]. eauto. }
  assert (E : decode (S fuel) (JBuffer (b :: 0 :: rest)) =
              Throw "invalid RLP: extra zeros").
  { rewrite decode_buffer. destruct Hb as [Hb | Hb].
    - rewrite _decode_long_string by lia.
      destruct (Hfield (b - 0xb6) ltac:(lia)) as (field & ->).
      rewrite safeParseInt_leading_zero. reflexivity.
    - rewrite _decode_long_list by lia.
      destruct (Hfield (b - 0xf6) ltac:(lia)) as (field & ->).
      rewrite safeParseInt_leading_zero. reflexivity. }
  split; [exact E | split].
  - rewrite E. eexists; split; reflexivity.
  - intros Hlist. unfold getLength.
    cbn [falsy length_is_zero orb toBuffer bind buf_get nth_error num_leb num_sub].
    rewrite buf_length_cons.
    destruct (Z.eqb_spec (1 + buf_length (0 :: rest)) 0) as [E0 | _].
    { pose proof (buf_length_nonneg (0 :: rest)). lia. }
    repeat match goal with
           | |- context [Z.leb b ?c] => destruct (Z.leb_spec b c); try lia
           end.
    destruct (Hfield (b - 0xf6) ltac:(lia)) as (field & ->).
    rewrite safeParseInt_leading_zero. reflexivity.
Qed.

Lemma decode_redundant_length_bytes_witness :
  decode 1 (JBuffer [0xb9; 0x00; 0x38]) = Throw "invalid RLP: extra zeros" /\
  fails_with (decode 1 (JBuffer [0xb9; 0x00; 0x38])) RedundantLengthBytes /\
  (0xf8 <= 0xb9 -> getLength (JBuffer [0xb9; 0x00; 0x38]) = Throw "invalid RLP: extra zeros").
Proof.
  apply (decode_redundant_length_bytes 0 0xb9 [0x38]). left. lia.
Defined.

(** X8.  [intToHex] writes a non-negative integer that a number holds
    exactly with an even number of hexadecimal digits, and [parseInt] reads
    the integer back from them. *)
Theorem intToHex_parseInt (n : Z) :
  0 <= n <= MAX_SAFE_INTEGER ->
  str_length (intToHex (Int n)) mod 2 = 0 /\
  parseInt16 (intToHex (Int n)) = Int n.
Proof.
  intros [Hn _]. destruct (Z.eq_dec n 0) as [-> | Hnz]; [split; reflexivity |].
  destruct (intToHex_spec n ltac:(lia)) as (h & l & ds & -> & Hd & Hev & Hval & _).
  split.
  - unfold str_length. rewrite hex_text_length. exact Hev.
  - assert (Hh : is_digit h) by (inversion Hd; assumption).
    unfold parseInt16. cbn [hex_text]. rewrite (hexValue_hexDigit h Hh).
    change (String (hexDigit h) (String (hexDigit l) (hex_text ds)))
      with (hex_text (h :: l :: ds)).
    rewrite parse_hex_text by assumption. now rewrite Hval.
Qed.

Lemma intToHex_parseInt_witness :
  0 <= 1024 <= MAX_SAFE_INTEGER /\
  str_length (intToHex (Int 1024)) mod 2 = 0 /\
  parseInt16 (intToHex (Int 1024)) = Int 1024.
Proof.
  assert (H : 0 <= 1024 <= MAX_SAFE_INTEGER) by (vm_compute; split; discriminate).
  split; [exact H |]. exact (intToHex_parseInt 1024 H).
Defined.

(** ** Scalar coercion *)

Lemma intToBuffer_spec (n : Z) :
  0 < n ->
  exists z lb,
    intToBuffer (Int n) = z :: lb /\ Forall is_byte (z :: lb) /\ z <> 0 /\
    be_value (z :: lb) = n /\ 256 ^ buf_length lb <= n.
Proof.
  intros Hn. unfold intToBuffer.
  destruct (intToHex_spec n Hn) as (h & l & ds & -> & Hd & Hev & Hval & Hnz & Hlow).
  rewrite buffer_from_hex_digits by assumption.
  pose proof (pair_bytes_is_byte _ Hd) as Hb.
  pose proof (pair_bytes_value (h :: l :: ds) 0 Hev) as Hv.
  assert (Hev' : Z.of_nat (List.length ds) mod 2 = 0) by (cbn [List.length] in Hev; dlia).
  pose proof (pair_bytes_length ds Hev') as Hpl.
  cbn [pair_bytes] in *.
  exists (16 * h + l), (pair_bytes ds). repeat split; try assumption.
  - unfold be_value. rewrite Hv. exact Hval.
  - replace 256 with (16 ^ 2) by reflexivity.
    rewrite <- Z.pow_mul_r by (pose proof (buf_length_nonneg (pair_bytes ds)); lia).
    rewrite Hpl. exact Hlow.
Qed.

(** X9.  An integer is coerced to its minimal big-endian bytes: zero to
    the empty sequence, a positive integer to octets whose big-endian value
    is the integer and whose first byte is not zero. *)
Theorem toBuffer_integer (n : Z) :
  0 <= n <= MAX_SAFE_INTEGER ->
  (n = 0 -> toBuffer (JNumber (Int n)) = Ok []) /\
  (0 < n ->
   exists b,
     toBuffer (JNumber (Int n)) = Ok b /\ Forall is_byte b /\
     be_value b = n /\ hd 0 b <> 0).
Proof.
  intros _. split.
  - intros ->. reflexivity.
  - intros Hn. cbn [toBuffer num_falsy].
    destruct (Z.eqb_spec n 0); [lia |].
    destruct (intToBuffer_spec n Hn) as (z & lb & -> & Hb & Hz & Hv & _).
    exists (z :: lb). repeat split; assumption.
Qed.

Lemma toBuffer_integer_witness :
  0 <= 1024 <= MAX_SAFE_INTEGER /\
  exists b,
    toBuffer (JNumber (Int 1024)) = Ok b /\ Forall is_byte b /\
    be_value b = 1024 /\ hd 0 b <> 0.
Proof.
  assert (H : 0 <= 1024 <= MAX_SAFE_INTEGER) by (unfold MAX_SAFE_INTEGER; lia).
  split; [exact H |]. apply (proj2 (toBuffer_integer 1024 H)). lia.
Defined.

(** X10.  An integer from 1 to 127 is its own encoding, and an integer from
    128 to 255 is encoded as [0x81] followed by the integer. *)
Theorem encode_integer_below_256 (n : Z) :
  0 < n < 256 ->
  encode (JNumber (Int n)) = Ok (if n <? 128 then [n] else [0x81; n]).
Proof.
  intros Hn. cbn [encode toBuffer num_falsy].
  destruct (Z.eqb_spec n 0); [lia |].
  destruct (intToBuffer_spec n ltac:(lia)) as (z & lb & -> & Hb & Hz & Hv & Hlow).
  assert (lb = []) as ->.
  { destruct lb as [| y lb]; [reflexivity | exfalso].
    rewrite buf_length_cons in Hlow. pose proof (buf_length_nonneg lb).
    rewrite Z.pow_add_r in Hlow by lia.
    assert (0 < 256 ^ buf_length lb) by (apply Z.pow_pos_nonneg; lia). nia. }
  unfold be_value in Hv. cbn [fold_left] in Hv. replace z with n by lia.
  cbn [bind buf_get nth_error num_ltb].
  change (buf_length [n] =? 1) with true. cbn [andb].
  destruct (Z.ltb_spec n 128); [reflexivity |].
  change (buf_length [n]) with 1. reflexivity.
Qed.

Lemma encode_integer_below_256_witness :
  0 < 200 < 256 /\ encode (JNumber (Int 200)) = Ok [0x81; 200].
Proof.
  assert (H : 0 < 200 < 256) by lia.
  split; [exact H |]. exact (encode_integer_below_256 200 H).
Defined.

Lemma substring_all (s : string) : substring 0 (String.length s) s = s.
Proof. induction s as [| c s IH]; cbn; [reflexivity | now rewrite IH]. Qed.

Lemma pair_bytes_byte_digits (b : Buffer) : pair_bytes (byte_digits b) = b.
Proof.
  induction b as [| z b IH]; [reflexivity |].
  cbn [byte_digits flat_map app pair_bytes]. fold (byte_digits b).
  rewrite IH. f_equal. dlia.
Qed.

Lemma byte_digits_length (b : Buffer) :
  Z.of_nat (List.length (byte_digits b)) = 2 * buf_length b.
Proof.
  unfold buf_length. induction b as [| z b IH]; [reflexivity |].
  cbn [byte_digits flat_map app List.length]. fold (byte_digits b). lia.
Qed.

Lemma hex_prefixed_text (s : string) :
  isHexPrefixed (String "0" (String "x" s)) = true /\
  stripHexPrefix (String "0" (String "x" s)) = s.
Proof.
  assert (H : isHexPrefixed (String "0" (String "x" s)) = true).
  { unfold isHexPrefixed. cbn [substring]. destruct s; reflexivity. }
  split; [exact H |]. unfold stripHexPrefix. rewrite H.
  cbn [String.length Nat.sub substring]. rewrite Nat.sub_0_r. apply substring_all.
Qed.

(** X11.  A text that starts with [0x] is read as hexadecimal digits, two
    digits a byte; when the number of digits is odd, a zero digit is put in
    front of them.  In particular the hexadecimal text of a buffer is coerced
    back to that buffer. *)
Theorem toBuffer_hex_text (ds : list Z) (b : Buffer) :
  Forall is_digit ds -> Forall is_byte b ->
  toBuffer (JString (String "0" (String "x" (hex_text ds)))) =
    Ok (pair_bytes (if Z.of_nat (List.length ds) mod 2 =? 0 then ds else 0 :: ds)) /\
  toBuffer (JString (String "0" (String "x" (toHexString b)))) = Ok b.
Proof.
  intros Hd Hb.
  assert (Hgen : forall ds', Forall is_digit ds' ->
             toBuffer (JString (String "0" (String "x" (hex_text ds')))) =
               Ok (pair_bytes (if Z.of_nat (List.length ds') mod 2 =? 0
                               then ds' else 0 :: ds'))).
  { intros ds' Hd'. cbn [toBuffer].
    destruct (hex_prefixed_text (hex_text ds')) as [-> ->].
    unfold padToEven, str_length. rewrite hex_text_length.
    destruct (Z.eqb_spec (Z.of_nat (List.length ds') mod 2) 0) as [Hev | Hodd];
      cbn [negb].
    - now rewrite buffer_from_hex_digits.
    - change (String "0" (hex_text ds')) with (hex_text (0 :: ds')).
      rewrite buffer_from_hex_digits; [reflexivity | |].
      + constructor; [unfold is_digit; lia | exact Hd'].
      + cbn [List.length]. dlia. }
  split; [exact (Hgen ds Hd) |].
  rewrite toHexString_byte_digits, Hgen by (apply byte_digits_is_digit; exact Hb).
  rewrite byte_digits_length.
  replace (2 * buf_length b mod 2 =? 0) with true
    by (symmetry; apply Z.eqb_eq; dlia).
  now rewrite pair_bytes_byte_digits.
Qed.

Lemma toBuffer_hex_text_witness :
  toBuffer (JString "0x123") = Ok [0x01; 0x23] /\
  toBuffer (JString "0xc883") = Ok [0xc8; 0x83].
Proof.
  apply (toBuffer_hex_text [1; 2; 3] [0xc8; 0x83]).
  - repeat constructor; unfold is_digit; lia.
  - repeat constructor; unfold is_byte; lia.
Defined.

Lemma hexValue_range (c : ascii) (d : Z) : hexValue c = Some d -> is_digit d.
Proof.
  unfold hexValue, is_digit. intros H.
  repeat match type of H with
         | (if ?c then _ else _) = _ => destruct c eqn:?
         end; try discriminate H; injection H as <-; lia.
Qed.

Lemma buffer_from_hex_is_byte (s : string) : Forall is_byte (buffer_from_hex s).
Proof.
  assert (H : forall n s, (String.length s <= n)%nat -> Forall is_byte (buffer_from_hex s)).
  { induction n as [| n IH]; intros [| c1 [| c2 s']] Hlen; cbn [buffer_from_hex];
      try constructor; cbn [String.length] in Hlen; try lia.
    destruct (hexValue c1) as [h |] eqn:Hh; [| constructor].
    destruct (hexValue c2) as [l |] eqn:Hl; [| constructor].
    apply hexValue_range in Hh, Hl. unfold is_digit in *.
    constructor; [unfold is_byte; lia |]. apply IH. lia. }
  apply (H (String.length s)). lia.
Qed.

Lemma buffer_from_utf8_is_byte (s : string) : Forall is_byte (buffer_from_utf8 s).
Proof.
  induction s as [| c s IH]; cbn [buffer_from_utf8]; [constructor |].
  pose proof (nat_ascii_bounded c) as Hc.
  destruct (Z.ltb_spec (Z.of_nat (nat_of_ascii c)) 128).
  - constructor; [unfold is_byte; lia | exact IH].
  - repeat constructor; try exact IH; dlia.
Qed.

Lemma toBuffer_is_byte (v : JSValue) (b : Buffer) :
  toBuffer v = Ok b ->
  (forall b0, v = JBuffer b0 -> Forall is_byte b0) ->
  Forall is_byte b.
Proof.
  intros H Hbuf. destruct v; cbn [toBuffer] in H; try discriminate H.
  - injection H as <-. apply Hbuf. reflexivity.
  - destruct (isHexPrefixed s); injection H as <-.
    + apply buffer_from_hex_is_byte.
    + apply buffer_from_utf8_is_byte.
  - destruct (num_falsy n); injection H as <-.
    + constructor.
    + apply buffer_from_hex_is_byte.
  - injection H as <-. apply buffer_from_hex_is_byte.
  - injection H as <-. constructor.
  - injection H as <-. constructor.
  - injection H as <-. unfold buffer_from_array.
    apply Forall_forall. intros z Hz. apply in_map_iff in Hz.
    destruct Hz as (y & <- & _). unfold is_byte. dlia.
Qed.

(** X12.  Whatever [toBuffer] returns is a sequence of octets, provided that
    an input that is a buffer already is one. *)
Theorem toBuffer_octets (v : JSValue) (b : Buffer) :
  toBuffer v = Ok b ->
  (forall b0, v = JBuffer b0 -> Forall is_byte b0) ->
  Forall is_byte b.
Proof. apply toBuffer_is_byte. Qed.

Lemma toBuffer_octets_witness :
  Forall is_byte [0xff; 0x01; 0x00].
Proof.
  apply (toBuffer_octets (JBigNum [-1; 257; 256]) [0xff; 0x01; 0x00]).
  - reflexivity.
  - discriminate.
Defined.

(** ** What the recursive decoder returns *)

Lemma Forall_firstn_keep {A : Type} (P : A -> Prop) (n : nat) (l : list A) :
  Forall P l -> Forall P (firstn n l).
Proof.
  intros H. revert n. induction H as [| x l Hx _ IH]; intros [| n]; cbn [firstn];
    constructor; auto.
Qed.

Lemma Forall_skipn_keep {A : Type} (P : A -> Prop) (n : nat) (l : list A) :
  Forall P l -> Forall P (skipn n l).
Proof.
  intros H. revert n. induction H as [| x l Hx Hl IH]; intros [| n]; cbn [skipn].
  - constructor.
  - constructor.
  - constructor; assumption.
  - apply IH.
Qed.

Lemma slice_is_byte (b : Buffer) (s e : number) :
  Forall is_byte b -> Forall is_byte (slice b s e).
Proof. intros H. unfold slice. apply Forall_firstn_keep, Forall_skipn_keep, H. Qed.

Lemma slice_from_is_byte (b : Buffer) (s : number) :
  Forall is_byte b -> Forall is_byte (slice_from b s).
Proof. intros H. apply slice_is_byte, H. Qed.

Lemma is_item_of_bytes (b : Buffer) : Forall is_byte b -> is_item (JBuffer b) = true.
Proof.
  intros H. cbn [is_item]. apply forallb_forall. rewrite Forall_forall in H.
  intros z Hz. specialize (H z Hz). unfold is_byte in H.
  apply andb_true_iff. split; [apply Z.leb_le | apply Z.ltb_lt]; lia.
Qed.

Lemma decode_results_are_items (fuel : nat) :
  (forall input d rem,
      Forall is_byte input -> _decode fuel input = Ok (d, rem) ->
      is_item d = true /\ Forall is_byte rem) /\
  (forall span acc items,
      Forall is_byte span -> forallb is_item acc = true ->
      decode_loop fuel span acc = Ok items -> forallb is_item items = true).
Proof.
  induction fuel as [| fuel [IHd IHl]].
  - split; [discriminate |].
    intros [| z span] acc items _ Hacc H.
    + rewrite decode_loop_nil in H. now injection H as <-.
    + cbn [decode_loop] in H. destruct (_ =? 0) eqn:E; [| discriminate H].
      now injection H as <-.
  - assert (Hloop : forall span acc items,
               Forall is_byte span -> forallb is_item acc = true ->
               decode_loop (S fuel) span acc = Ok items -> forallb is_item items = true).
    { intros [| z span] acc items Hspan Hacc H.
      - rewrite decode_loop_nil in H. now injection H as <-.
      - rewrite decode_loop_cons in H.
        destruct (_decode fuel (z :: span)) as [[d rem] | |] eqn:Hd; try discriminate H.
        cbn [bind fst snd] in H. destruct (IHd _ _ _ Hspan Hd) as [Hitem Hrem].
        apply (IHl rem (acc ++ [d]) items Hrem); [| exact H].
        rewrite forallb_app, Hacc. cbn [forallb]. now rewrite Hitem. }
    split; [| exact Hloop].
    intros [| b rest] d rem Hin H; [discriminate H |].
    destruct (Z.le_gt_cases b 0x7f).
    { rewrite _decode_single in H by lia. injection H as <- <-.
      inversion Hin; subst. split; [apply is_item_of_bytes; auto | assumption]. }
    destruct (Z.le_gt_cases b 0xb7).
    { rewrite _decode_short_string in H by lia. cbv zeta in H.
      destruct (_ && _); [discriminate H |]. injection H as <- <-.
      split; [| apply slice_from_is_byte, Hin].
      apply is_item_of_bytes. destruct (_ =? _); [constructor |].
      apply slice_is_byte, Hin. }
    destruct (Z.le_gt_cases b 0xbf).
    { rewrite _decode_long_string in H by lia.
      destruct (safeParseInt _) as [length | |]; try discriminate H.
      cbn [bind] in H. cbv zeta in H. destruct (num_ltb _ _); [discriminate H |].
      injection H as <- <-.
      split; [apply is_item_of_bytes, slice_is_byte, Hin | apply slice_from_is_byte, Hin]. }
    rewrite _decode_list_form in H by lia.
    destruct (payload_span (b :: rest)) as [[span remainder] | |] eqn:Hspan;
      try discriminate H.
    cbn [bind fst snd] in H.
    destruct (decode_loop fuel span []) as [decoded | |] eqn:Hl; try discriminate H.
    cbn [bind] in H. injection H as <- <-.
    assert (Hsr : Forall is_byte span /\ Forall is_byte remainder).
    { unfold payload_span in Hspan. cbv zeta in Hspan.
      destruct (num_leb _ _).
      - injection Hspan as <- <-. split; [apply slice_is_byte | apply slice_from_is_byte]; exact Hin.
      - destruct (safeParseInt _); try discriminate Hspan. cbn [bind] in Hspan.
        destruct (num_gtb _ _); [discriminate Hspan |].
        destruct (_ =? 0); [discriminate Hspan |].
        injection Hspan as <- <-.
        split; [apply slice_is_byte | apply slice_from_is_byte]; exact Hin. }
    destruct Hsr as [Hs Hr]. split; [| exact Hr].
    cbn [is_item]. exact (IHl span [] decoded Hs eq_refl Hl).
Qed.

(** X13.  From a sequence of octets [_decode] returns an item, that is a
    byte string or a list of items and nothing else, and a remainder that is
    the end of its input. *)
Theorem _decode_returns_item (fuel : nat) (input rem : Buffer) (d : JSValue) :
  Forall is_byte input -> _decode fuel input = Ok (d, rem) ->
  is_item d = true /\ Forall is_byte rem /\ exists consumed, input = consumed ++ rem.
Proof.
  intros Hin H.
  destruct (proj1 (decode_results_are_items fuel) input d rem Hin H) as [Hd Hr].
  split; [exact Hd | split; [exact Hr |]].
  exact (_decode_remainder_suffix fuel input rem d H).
Qed.

Lemma _decode_returns_item_witness :
  is_item (JArray [JBuffer [0x61]]) = true /\ Forall is_byte [0x00] /\
  exists consumed, [0xc2; 0x83; 0x61; 0x00] = consumed ++ [0x00].
Proof.
  apply (_decode_returns_item 3 [0xc2; 0x83; 0x61; 0x00]).
  - repeat constructor; unfold is_byte; lia.
  - reflexivity.
Defined.

(** ** Progress and loops without end *)

Lemma safeParseInt_ok_cases (field : Buffer) (n : number) :
  Forall is_byte field -> safeParseInt (toHexString field) = Ok n ->
  (field = [] /\ n = NaN) \/ (exists v, n = Int v /\ 0 < v).
Proof.
  intros Hb H. destruct field as [| z field].
  - left. cbn in H. injection H as <-. split; reflexivity.
  - right. destruct (Z.eq_dec z 0) as [-> | Hz].
    + rewrite safeParseInt_leading_zero in H. discriminate H.
    + destruct (safeParseInt_field (z :: field) Hb Hz) as [E Hpos].
      rewrite E in H. injection H as <-. eauto.
Qed.

Lemma slice_from_length (b : Buffer) (s : Z) :
  0 <= s -> buf_length (slice_from b (Int s)) = Z.max 0 (buf_length b - s).
Proof.
  intros Hs. rewrite slice_from_nonneg by assumption. unfold buf_length.
  rewrite length_skipn. lia.
Qed.

Lemma slice_to_NaN (b : Buffer) (s : number) : slice b s NaN = [].
Proof.
  unfold slice. cbn [adjustOffset].
  pose proof (adjustOffset_range s _ (buf_length_nonneg b)) as Hs.
  destruct (Z.ltb_spec (adjustOffset s (buf_length b)) 0); [lia | reflexivity].
Qed.

Lemma slice_from_NaN (b : Buffer) : slice_from b NaN = b.
Proof.
  unfold slice_from, slice.
  pose proof (buf_length_nonneg b) as Hl.
  rewrite adjustOffset_nonneg by lia.
  change (adjustOffset NaN (buf_length b)) with 0.
  rewrite Z.min_id, Z.sub_0_r.
  cbn [Z.to_nat skipn].
  destruct (Z.ltb_spec 0 (buf_length b)).
  - apply firstn_all2. unfold buf_length. lia.
  - assert (buf_length b = 0) as E by lia. apply buf_length_zero in E. now subst b.
Qed.

(** A long string that is its marker byte alone: its length field is
    missing, and [_decode] returns the empty string without consuming
    anything. *)
Lemma _decode_lone_marker (fuel : nat) (b : Z) :
  0xb8 <= b <= 0xbf -> _decode (S fuel) [b] = Ok (JBuffer [], [b]).
Proof.
  intros Hb. rewrite _decode_long_string by lia.
  assert (Hfield : slice [b] (Int 1) (Int (b - 0xb6)) = []).
  { rewrite slice_nonneg by lia. replace (Z.to_nat 1) with 1%nat by reflexivity.
    cbn [skipn]. apply firstn_nil. }
  rewrite Hfield. cbn [toHexString]. change (safeParseInt "") with (@Ok number NaN).
  cbn [bind num_add]. cbv zeta.
  rewrite slice_to_NaN, slice_from_NaN. reflexivity.
Qed.

Lemma _decode_consumes (fuel : nat) (input rem : Buffer) (d : JSValue) :
  Forall is_byte input -> _decode fuel input = Ok (d, rem) ->
  buf_length rem < buf_length input \/
  (exists b, 0xb8 <= b <= 0xbf /\ input = [b] /\ d = JBuffer [] /\ rem = [b]).
Proof.
  intros Hin H. destruct fuel as [| fuel]; [discriminate H |].
  destruct input as [| b rest]; [discriminate H |].
  pose proof (buf_length_nonneg rest) as Hrest.
  destruct (Z.le_gt_cases b 0x7f).
  { rewrite _decode_single in H by lia. injection H as <- <-.
    left. rewrite buf_length_cons. lia. }
  destruct (Z.le_gt_cases b 0xb7).
  { rewrite _decode_short_string in H by lia. cbv zeta in H.
    destruct (_ && _); [discriminate H |]. injection H as <- <-.
    left. rewrite slice_from_length by lia. rewrite buf_length_cons. lia. }
  destruct (Z.le_gt_cases b 0xbf).
  { rewrite _decode_long_string in H by lia.
    destruct (safeParseInt _) as [length | |] eqn:Hparse; try discriminate H.
    apply safeParseInt_ok_cases in Hparse; [| apply slice_is_byte, Hin].
    destruct Hparse as [[Hfield ->] | (v & -> & Hv)].
    - right. exists b.
      assert (rest = []) as ->.
      { rewrite slice_nonneg in Hfield by lia.
        replace (Z.to_nat 1) with 1%nat in Hfield by reflexivity.
        cbn [skipn] in Hfield.
        replace (Z.to_nat (b - 182 - 1)) with (S (Z.to_nat (b - 184))) in Hfield by lia.
        destruct rest; [reflexivity | discriminate Hfield]. }
      cbn [bind num_add] in H. cbv zeta in H.
      rewrite slice_to_NaN, slice_from_NaN in H.
      cbn [num_ltb] in H. injection H as <- <-.
      repeat split; lia.
    - cbn [bind num_add] in H. cbv zeta in H.
      destruct (num_ltb _ _); [discriminate H |]. injection H as <- <-.
      left. rewrite slice_from_length by lia. rewrite buf_length_cons. lia. }
  destruct (Z.le_gt_cases b 0xf7).
  { rewrite _decode_short_list in H by lia.
    destruct (decode_loop _ _ _); try discriminate H.
    cbn [bind] in H. injection H as <- <-.
    left. rewrite slice_from_length by lia. rewrite buf_length_cons. lia. }
  rewrite _decode_long_list in H by lia.
  destruct (safeParseInt _) as [length | |] eqn:Hparse; try discriminate H.
  apply safeParseInt_ok_cases in Hparse; [| apply slice_is_byte, Hin].
  cbn [bind] in H. cbv zeta in H.
  destruct Hparse as [[_ ->] | (v & -> & Hv)].
  - exfalso. cbn [num_add num_gtb num_ltb] in H. rewrite slice_to_NaN in H.
    discriminate H.
  - destruct (num_gtb _ _); [discriminate H |].
    destruct (_ =? 0); [discriminate H |].
    destruct (decode_loop _ _ _); try discriminate H.
    cbn [bind num_add] in H. injection H as <- <-.
    left. rewrite slice_from_length by lia. rewrite buf_length_cons. lia.
Qed.

(** X14.  On a sequence of octets, a [_decode] that returns has consumed at
    least one byte, with one exception: a long-string marker
    ([0xb8..0xbf]) alone, which is read as the empty string and left in the
    remainder. *)
Theorem _decode_progress (fuel : nat) (input rem : Buffer) (d : JSValue) :
  Forall is_byte input -> _decode fuel input = Ok (d, rem) ->
  buf_length rem < buf_length input \/
  (exists b, 0xb8 <= b <= 0xbf /\ input = [b] /\ d = JBuffer [] /\ rem = [b]).
Proof. apply _decode_consumes. Qed.

Lemma _decode_progress_witness :
  buf_length [0x00] < buf_length [0xc2; 0x83; 0x61; 0x00] \/
  (exists b, 0xb8 <= b <= 0xbf /\ [0xc2; 0x83; 0x61; 0x00] = [b] /\
             JArray [JBuffer [0x61]] = JBuffer [] /\ [0x00] = [b]).
Proof.
  apply (_decode_progress 3 [0xc2; 0x83; 0x61; 0x00]).
  - repeat constructor; unfold is_byte; lia.
  - reflexivity.
Defined.

Lemma decode_loop_lone_marker (fuel : nat) (b : Z) (acc : list JSValue) :
  0xb8 <= b <= 0xbf -> decode_loop fuel [b] acc = OutOfFuel.
Proof.
  intros Hb. revert acc. induction fuel as [| fuel IH]; intros acc.
  - cbn [decode_loop]. change (buf_length [b] =? 0) with false. reflexivity.
  - rewrite decode_loop_cons. destruct fuel as [| fuel]; [reflexivity |].
    rewrite _decode_lone_marker by assumption. cbn [bind fst snd]. apply IH.
Qed.

Lemma _decode_encode_any_fuel (x : JSValue) (e rest : Buffer) (fuel : nat) :
  is_item x = true -> encode x = Ok e -> buf_length e < 2 ^ 64 ->
  _decode fuel (e ++ rest) = OutOfFuel \/ _decode fuel (e ++ rest) = Ok (x, rest).
Proof.
  intros Hx He Hlen. destruct (_decode_encode x Hx e He Hlen) as (n & Hn).
  pose proof (Hn (Nat.max n fuel) rest (Nat.le_max_l _ _)) as Hmax.
  destruct (_decode fuel (e ++ rest)) as [r | msg |] eqn:E; [right | right | now left].
  - pose proof (_decode_more_fuel fuel (Nat.max n fuel) _ _ E
                  ltac:(discriminate) ltac:(lia)) as H'.
    rewrite H' in Hmax. exact Hmax.
  - pose proof (_decode_more_fuel fuel (Nat.max n fuel) _ _ E
                  ltac:(discriminate) ltac:(lia)) as H'.
    rewrite H' in Hmax. exact Hmax.
Qed.

Lemma decode_loop_items_then_marker (items : list JSValue) :
  forallb is_item items = true ->
  forall e b, encode_each items = Ok e -> buf_length e < 2 ^ 64 ->
              0xb8 <= b <= 0xbf ->
              forall fuel acc, decode_loop fuel (e ++ [b]) acc = OutOfFuel.
Proof.
  induction items as [| x items IH]; intros Hitems e b He Hlen Hb fuel acc.
  - injection He as <-. apply decode_loop_lone_marker, Hb.
  - cbn [forallb] in Hitems. apply andb_true_iff in Hitems as [Hx Hl].
    cbn [encode_each] in He.
    destruct (encode x) as [o | |] eqn:Ho; try discriminate He.
    destruct (encode_each items) as [r | |] eqn:Hr; try discriminate He.
    cbn [bind] in He. injection He as <-.
    rewrite buf_length_app in Hlen.
    pose proof (buf_length_nonneg o). pose proof (buf_length_nonneg r).
    destruct (encode_nonempty x o Hx Ho ltac:(lia)) as (z & o' & ->).
    rewrite <- app_assoc. change ((z :: o') ++ r ++ [b]) with (z :: (o' ++ r ++ [b])).
    destruct fuel as [| fuel].
    + cbn [decode_loop]. rewrite buf_length_cons.
      destruct (Z.eqb_spec (1 + buf_length (o' ++ r ++ [b])) 0) as [E | _]; [| reflexivity].
      pose proof (buf_length_nonneg (o' ++ r ++ [b])). lia.
    + rewrite decode_loop_cons.
      change (z :: (o' ++ r ++ [b])) with ((z :: o') ++ (r ++ [b])).
      destruct (_decode_encode_any_fuel x (z :: o') (r ++ [b]) fuel Hx Ho ltac:(lia))
        as [-> | ->]; [reflexivity |].
      cbn [bind fst snd]. apply (IH Hl r b eq_refl); lia.
Qed.

(** X15.  A list whose payload is the encodings of some items followed by
    one long-string marker byte ([0xb8..0xbf]) is never decoded: the loop
    over the payload reads the marker as an empty string again and again,
    and neither [_decode] nor top-level [decode] returns or throws, whatever
    the budget and whatever follows the list. *)
Theorem decode_trailing_marker_never_returns
        (items : list JSValue) (e extra : Buffer) (b : Z) (fuel : nat) :
  forallb is_item items = true -> encode_each items = Ok e ->
  buf_length e <= 54 -> 0xb8 <= b <= 0xbf ->
  _decode fuel ((0xc0 + (buf_length e + 1)) :: e ++ [b] ++ extra) = OutOfFuel /\
  decode fuel (JBuffer ((0xc0 + (buf_length e + 1)) :: e ++ [b] ++ extra)) = OutOfFuel.
Proof.
  intros Hitems He Hlen Hb.
  pose proof (buf_length_nonneg e) as Hnn.
  assert (E : _decode fuel ((0xc0 + (buf_length e + 1)) :: e ++ [b] ++ extra) = OutOfFuel).
  { destruct fuel as [| fuel]; [reflexivity |].
    rewrite _decode_short_list by lia.
    rewrite (slice_mid_eq _ [0xc0 + (buf_length e + 1)] (e ++ [b]) extra);
      [| list_shape | reflexivity | buf_arith].
    rewrite (decode_loop_items_then_marker items Hitems e b He ltac:(lia) Hb).
    reflexivity. }
  split; [exact E |]. rewrite decode_buffer, E. reflexivity.
Qed.

Lemma decode_trailing_marker_never_returns_witness :
  _decode 1000 ((0xc0 + (buf_length [0x83; 0x64; 0x6f; 0x67] + 1)) ::
                 [0x83; 0x64; 0x6f; 0x67] ++ [0xb8] ++ [0x00]) = OutOfFuel /\
  decode 1000 (JBuffer ((0xc0 + (buf_length [0x83; 0x64; 0x6f; 0x67] + 1)) ::
                         [0x83; 0x64; 0x6f; 0x67] ++ [0xb8] ++ [0x00])) = OutOfFuel.
Proof.
  apply (decode_trailing_marker_never_returns [JBuffer [0x64; 0x6f; 0x67]]).
  - reflexivity.
  - reflexivity.
  - vm_compute. discriminate.
  - lia.
Defined.

(** ** Encodings that are not canonical *)

(** X16.  [_decode] accepts the long-string form for a string of 1 to 55
    bytes, which [encode] never produces: the decoded item is the same as
    for the short form, so that two different buffers decode to one
    string. *)
Theorem _decode_long_form_of_short_string
        (fuel : nat) (payload rest : Buffer) :
  1 <= buf_length payload <= 55 ->
  _decode (S fuel) (0xb8 :: buf_length payload :: payload ++ rest) =
    Ok (JBuffer payload, rest) /\
  _decode (S fuel) ((0x80 + buf_length payload) :: payload ++ rest) =
    (if (buf_length payload =? 1) && num_ltb (buf_get payload 0) (Int 0x80)
     then Throw "invalid rlp encoding: byte must be less 0x80"
     else Ok (JBuffer payload, rest)) /\
  encode (JBuffer payload) <> Ok (0xb8 :: buf_length payload :: payload).
Proof.
  intros Hlen. split; [| split].
  - rewrite _decode_long_string by lia.
    rewrite (slice_mid_eq _ [0xb8] [buf_length payload] (payload ++ rest));
      [| list_shape | reflexivity | reflexivity].
    destruct (safeParseInt_field [buf_length payload]) as [-> _].
    { repeat constructor; lia. }
    { cbn [hd]. lia. }
    replace (be_value [buf_length payload]) with (buf_length payload)
      by (unfold be_value; cbn [fold_left]; lia).
    cbn [bind num_add]. cbv zeta.
    rewrite (slice_mid_eq _ [0xb8; buf_length payload] payload rest);
      [| list_shape | reflexivity | buf_arith].
    cbn [num_ltb]. rewrite Z.ltb_irrefl.
    rewrite (slice_from_eq _ ([0xb8; buf_length payload] ++ payload) rest);
      [reflexivity | list_shape | buf_arith].
  - rewrite _decode_short_string by lia. cbv zeta.
    destruct (Z.eqb_spec (0x80 + buf_length payload) 0x80) as [E | _]; [lia |].
    rewrite (slice_mid_eq _ [0x80 + buf_length payload] payload rest);
      [| list_shape | reflexivity | buf_arith].
    rewrite (slice_from_eq _ ((0x80 + buf_length payload) :: payload) rest);
      [| list_shape | buf_arith].
    replace (0x80 + buf_length payload - 0x7f =? 2) with (buf_length payload =? 1);
      [reflexivity |].
    destruct (Z.eqb_spec (buf_length payload) 1), (Z.eqb_spec (128 + buf_length payload - 127) 2);
      lia || reflexivity.
  - rewrite encode_buffer. intros [= E].
    assert (Hl : buf_length (if (buf_length payload =? 1) &&
                                  num_ltb (buf_get payload 0) (Int 128)
                             then payload
                             else encodeLength (buf_length payload) 128 ++ payload) =
                 buf_length (184 :: buf_length payload :: payload)) by (now rewrite E).
    destruct (_ && _).
    + rewrite !buf_length_cons in Hl. lia.
    + rewrite encodeLength_short in Hl by lia.
      cbn [app] in Hl. rewrite !buf_length_cons in Hl. lia.
Qed.

Lemma _decode_long_form_of_short_string_witness :
  1 <= buf_length [0x64; 0x6f; 0x67] <= 55 /\
  _decode 1 (0xb8 :: buf_length [0x64; 0x6f; 0x67] :: [0x64; 0x6f; 0x67] ++ []) =
    Ok (JBuffer [0x64; 0x6f; 0x67], []).
Proof.
  assert (H : 1 <= buf_length [0x64; 0x6f; 0x67] <= 55) by (vm_compute; split; discriminate).
  split; [exact H |].
  exact (proj1 (_decode_long_form_of_short_string 0 [0x64; 0x6f; 0x67] [] H)).
Defined.

(** ** A budget that is enough *)

Lemma safeParseInt_not_OutOfFuel (v : string) : safeParseInt v <> OutOfFuel.
Proof. unfold safeParseInt. destruct (String.eqb _ _); discriminate. Qed.

Lemma payload_span_not_OutOfFuel (input : Buffer) : payload_span input <> OutOfFuel.
Proof.
  unfold payload_span. cbv zeta. destruct (num_leb _ _); [discriminate |].
  destruct (safeParseInt _) eqn:E; cbn [bind]; try discriminate.
  - destruct (num_gtb _ _); [discriminate |]. destruct (_ =? 0); discriminate.
  - now apply safeParseInt_not_OutOfFuel in E.
Qed.

Lemma payload_span_shorter (b : Z) (rest span remainder : Buffer) :
  0xc0 <= b -> Forall is_byte (b :: rest) ->
  payload_span (b :: rest) = Ok (span, remainder) ->
  buf_length span <= buf_length rest /\ Forall is_byte span.
Proof.
  intros Hb Hin H. unfold payload_span in H. cbv zeta in H.
  cbn [buf_get nth_error num_leb num_sub] in H.
  pose proof (buf_length_nonneg rest) as Hrest.
  destruct (Z.leb_spec b 247).
  - injection H as <- _. split; [| apply slice_is_byte, Hin].
    pose proof (slice_length_bound (b :: rest) 1 (b - 191) ltac:(lia) ltac:(lia)) as Hl.
    rewrite buf_length_cons in Hl. lia.
  - destruct (safeParseInt _) as [length | |] eqn:Hparse; try discriminate H.
    apply safeParseInt_ok_cases in Hparse; [| apply slice_is_byte, Hin].
    cbn [bind] in H.
    destruct Hparse as [[_ ->] | (v & -> & Hv)].
    + cbn [num_add num_gtb num_ltb] in H. rewrite slice_to_NaN in H. discriminate H.
    + destruct (num_gtb _ _); [discriminate H |]. destruct (_ =? 0); [discriminate H |].
      injection H as <- _. split; [| apply slice_is_byte, Hin].
      cbn [num_add].
      destruct (Z.le_gt_cases 1 (b - 246)).
      * pose proof (slice_length_bound (b :: rest) (b - 246) (b - 246 + v)
                      ltac:(lia) ltac:(lia)) as Hl.
        rewrite buf_length_cons in Hl. lia.
      * lia.
Qed.

(** Within a budget of twice the length of its input plus one, [_decode]
    either reaches an outcome or never will; likewise the loop, with one
    more unit. *)
Lemma decode_settles (L : nat) :
  (forall input,
      (List.length input <= L)%nat -> Forall is_byte input ->
      (forall fuel, (2 * L + 1 <= fuel)%nat -> _decode fuel input <> OutOfFuel) \/
      (forall fuel, _decode fuel input = OutOfFuel)) /\
  (forall span,
      (List.length span <= L)%nat -> Forall is_byte span ->
      (forall fuel acc, (2 * L + 2 <= fuel)%nat -> decode_loop fuel span acc <> OutOfFuel) \/
      (forall fuel acc, decode_loop fuel span acc = OutOfFuel)).
Proof.
  assert (Hdec : forall L,
             (forall span,
                 (List.length span < L)%nat -> Forall is_byte span ->
                 (forall fuel acc, (2 * L <= fuel)%nat ->
                                   decode_loop fuel span acc <> OutOfFuel) \/
                 (forall fuel acc, decode_loop fuel span acc = OutOfFuel)) ->
             forall input,
               (List.length input <= L)%nat -> Forall is_byte input ->
               (forall fuel, (2 * L + 1 <= fuel)%nat -> _decode fuel input <> OutOfFuel) \/
               (forall fuel, _decode fuel input = OutOfFuel)).
  { clear L. intros L Hloop [| b rest] Hlen Hin.
    - left. intros fuel Hfuel. destruct fuel as [| fuel]; [lia | discriminate].
    - destruct (Z.le_gt_cases b 0x7f).
      { left. intros [| fuel] Hfuel; [lia |]. rewrite _decode_single by lia. discriminate. }
      destruct (Z.le_gt_cases b 0xb7).
      { left. intros [| fuel] Hfuel; [lia |]. rewrite _decode_short_string by lia.
        cbv zeta. destruct (_ && _); discriminate. }
      destruct (Z.le_gt_cases b 0xbf).
      { left. intros [| fuel] Hfuel; [lia |]. rewrite _decode_long_string by lia.
        destruct (safeParseInt _) eqn:E; cbn [bind]; cbv zeta; try discriminate.
        - destruct (num_ltb _ _); discriminate.
        - now apply safeParseInt_not_OutOfFuel in E. }
      destruct (payload_span (b :: rest)) as [[span remainder] | msg |] eqn:Hspan.
      + destruct (payload_span_shorter b rest span remainder ltac:(lia) Hin Hspan)
          as [Hshort Hbytes].
        unfold buf_length in Hshort. cbn [List.length] in Hlen.
        destruct (Hloop span ltac:(lia) Hbytes) as [Hok | Hdiv].
        * left. intros [| fuel] Hfuel; [lia |].
          rewrite _decode_list_form, Hspan by lia. cbn [bind fst snd].
          destruct (decode_loop fuel span []) eqn:E; cbn [bind]; try discriminate.
          exfalso. apply (Hok fuel [] ltac:(lia) E).
        * right. intros [| fuel]; [reflexivity |].
          rewrite _decode_list_form, Hspan by lia. cbn [bind fst snd].
          now rewrite Hdiv.
      + left. intros [| fuel] Hfuel; [lia |].
        rewrite _decode_list_form, Hspan by lia. discriminate.
      + now apply payload_span_not_OutOfFuel in Hspan. }
  induction L as [| L [IHd IHl]].
  - split.
    + apply Hdec. intros span Hlen. lia.
    + intros [| z span] Hlen _; [| cbn [List.length] in Hlen; lia].
      left. intros fuel acc _. rewrite decode_loop_nil. discriminate.
  - assert (Hl' : forall span,
               (List.length span < S L)%nat -> Forall is_byte span ->
               (forall fuel acc, (2 * S L <= fuel)%nat ->
                                 decode_loop fuel span acc <> OutOfFuel) \/
               (forall fuel acc, decode_loop fuel span acc = OutOfFuel)).
    { intros span Hlen Hb. destruct (IHl span ltac:(lia) Hb) as [Hok | Hdiv].
      - left. intros fuel acc Hfuel. apply Hok. lia.
      - right. exact Hdiv. }
    pose proof (Hdec (S L) Hl') as Hd.
    split; [exact Hd |].
    intros [| z span] Hlen Hb.
    { left. intros fuel acc _. rewrite decode_loop_nil. discriminate. }
    destruct (Hd (z :: span) Hlen Hb) as [Hok | Hdiv].
    + destruct (_decode (2 * S L + 1) (z :: span)) as [[d rem] | msg |] eqn:E.
      * assert (Hmono : forall fuel, (2 * S L + 1 <= fuel)%nat ->
                                     _decode fuel (z :: span) = Ok (d, rem)).
        { intros fuel Hfuel.
          apply (_decode_more_fuel (2 * S L + 1)); [exact E | discriminate | exact Hfuel]. }
        assert (Hany : forall fuel, _decode fuel (z :: span) = OutOfFuel \/
                                    _decode fuel (z :: span) = Ok (d, rem)).
        { intros fuel. destruct (_decode fuel (z :: span)) eqn:E'; [right | right | now left].
          - pose proof (_decode_more_fuel fuel (Nat.max fuel (2 * S L + 1)) _ _ E'
                          ltac:(discriminate) ltac:(lia)) as H1.
            rewrite Hmono in H1 by lia. now rewrite H1.
          - pose proof (_decode_more_fuel fuel (Nat.max fuel (2 * S L + 1)) _ _ E'
                          ltac:(discriminate) ltac:(lia)) as H1.
            rewrite Hmono in H1 by lia. discriminate H1. }
        destruct (_decode_consumes _ _ _ _ Hb E) as [Hshort | (b & Hb' & Hin & _ & _)].
        -- destruct (proj1 (decode_results_are_items _) _ _ _ Hb E) as [_ Hrem].
           unfold buf_length in Hshort. cbn [List.length] in Hlen, Hshort.
           destruct (IHl rem ltac:(lia) Hrem) as [Hok' | Hdiv'].
           ++ left. intros [| fuel] acc Hfuel; [lia |].
              rewrite decode_loop_cons, Hmono by lia. cbn [bind fst snd].
              apply Hok'. lia.
           ++ right. intros [| fuel] acc.
              ** cbn [decode_loop]. rewrite buf_length_cons.
                 destruct (Z.eqb_spec (1 + buf_length span) 0); [| reflexivity].
                 pose proof (buf_length_nonneg span). lia.
              ** rewrite decode_loop_cons.
                 destruct (Hany fuel) as [-> | ->]; [reflexivity |].
                 cbn [bind fst snd]. apply Hdiv'.
        -- right. injection Hin as -> ->. intros fuel acc.
           apply decode_loop_lone_marker, Hb'.
      * left. intros [| fuel] acc Hfuel; [lia |].
        rewrite decode_loop_cons.
        rewrite (_decode_more_fuel (2 * S L + 1) fuel _ _ E ltac:(discriminate) ltac:(lia)).
        discriminate.
      * exfalso. apply (Hok (2 * S L + 1)%nat ltac:(lia) E).
    + right. intros [| fuel] acc.
      * cbn [decode_loop]. rewrite buf_length_cons.
        destruct (Z.eqb_spec (1 + buf_length span) 0); [| reflexivity].
        pose proof (buf_length_nonneg span). lia.
      * rewrite decode_loop_cons, Hdiv. reflexivity.
Qed.

(** X17.  For a sequence of octets, a budget of twice its length plus one
    settles [_decode] and top-level [decode]: a larger budget gives the same
    outcome.  So when that budget is exhausted the decoder does not end at
    all. *)
Theorem decode_budget (input : Buffer) (fuel : nat) :
  Forall is_byte input ->
  (2 * List.length input + 1 <= fuel)%nat ->
  _decode fuel input = _decode (2 * List.length input + 1) input /\
  decode fuel (JBuffer input) = decode (2 * List.length input + 1) (JBuffer input).
Proof.
  intros Hin Hfuel.
  assert (E : _decode fuel input = _decode (2 * List.length input + 1) input).
  { destruct (proj1 (decode_settles (List.length input)) input (Nat.le_refl _) Hin)
      as [Hok | Hdiv].
    - apply (_decode_more_fuel (2 * List.length input + 1)); [reflexivity | | exact Hfuel].
      apply Hok. lia.
    - now rewrite !Hdiv. }
  split; [exact E |]. destruct input as [| z input]; [reflexivity |].
  rewrite !decode_buffer, E. reflexivity.
Qed.

Lemma decode_budget_witness :
  _decode 50 [0xc1; 0xb8] = _decode (2 * List.length [0xc1; 0xb8] + 1) [0xc1; 0xb8] /\
  decode 50 (JBuffer [0xc1; 0xb8]) =
    decode (2 * List.length [0xc1; 0xb8] + 1) (JBuffer [0xc1; 0xb8]).
Proof.
  apply (decode_budget [0xc1; 0xb8] 50).
  - repeat constructor; unfold is_byte; lia.
  - vm_compute. lia.
Defined.

(** ** Encoding values that are not items *)

Lemma encode_scalar (v : JSValue) (b : Buffer) :
  toBuffer v = Ok b -> encode v = encode (JBuffer b).
Proof.
  intros Hb. rewrite encode_buffer.
  destruct v as [b0 | s | n | t | | | bb | items | ds |];
    try discriminate Hb;
    cbn [encode]; rewrite Hb; cbn [bind]; destruct (_ && _); reflexivity.
Qed.

Lemma encode_normalize (v : JSValue) :
  octet_leaves v = true ->
  forall x, normalize v = Ok x -> is_item x = true /\ encode v = encode x.
Proof.
  assert (Hscalar : forall v, octet_leaves v = true ->
                              forall x, (b <- toBuffer v ;; Ok (JBuffer b)) = Ok x ->
                                        is_item x = true /\ encode v = encode x).
  { intros v0 Hleaf x H.
    destruct (toBuffer v0) as [b | |] eqn:Hb; try discriminate H.
    cbn [bind] in H. injection H as <-. split.
    - apply is_item_of_bytes. apply (toBuffer_is_byte v0 b Hb).
      intros b0 ->. apply is_item_bytes. exact Hleaf.
    - apply encode_scalar; assumption. }
  induction v as [b | s | n | t | | | b | items IH | ds |] using JSValue_nested_ind;
    intros Hleaf x H;
    try (apply (Hscalar _ Hleaf x H)).
  cbn [normalize] in H. cbn [octet_leaves] in Hleaf.
  destruct ((fix normalize_each (l : list JSValue) : result (list JSValue) :=
               match l with
               | [] => Ok []
               | x :: l' =>
                   x' <- normalize x ;; rest <- normalize_each l' ;; Ok (x' :: rest)
               end) items) as [items' | |] eqn:Heach; try discriminate H.
  cbn [bind] in H. injection H as <-. cbn [is_item]. rewrite !encode_array.
  assert (Hboth : forallb is_item items' = true /\ encode_each items = encode_each items').
  { clear -IH Hleaf Heach. revert items' Heach.
    induction IH as [| v items Hv _ IHitems]; intros items' Heach.
    - injection Heach as <-. split; reflexivity.
    - cbn [forallb] in Hleaf. apply andb_true_iff in Hleaf as [H1 H2].
      destruct (normalize v) as [x' | |] eqn:Hx; try discriminate Heach.
      cbn [bind] in Heach.
      destruct ((fix normalize_each (l : list JSValue) : result (list JSValue) :=
                   match l with
                   | [] => Ok []
                   | x :: l' =>
                       x' <- normalize x ;; rest <- normalize_each l' ;; Ok (x' :: rest)
                   end) items) as [rest | |] eqn:Hrest; try discriminate Heach.
      cbn [bind] in Heach. injection Heach as <-.
      destruct (Hv H1 x' eq_refl) as [Hi He].
      destruct (IHitems H2 rest eq_refl) as [Hi' He'].
      cbn [forallb encode_each]. rewrite Hi, Hi', He, He'. split; reflexivity. }
  destruct Hboth as [-> ->]. split; reflexivity.
Qed.

(** X18.  [encode] looks at a value through [toBuffer] only: a value and
    the item it stands for, with every text, number, [null] and big number
    replaced by its byte string, have the same encoding, and [_decode] reads
    that item back from it. *)
Theorem _decode_encode_normalized (v x : JSValue) (e rest : Buffer) :
  octet_leaves v = true -> normalize v = Ok x -> encode v = Ok e ->
  buf_length e <= MAX_SAFE_INTEGER ->
  is_item x = true /\ encode x = Ok e /\
  exists n, forall fuel,
      (n <= fuel)%nat -> _decode fuel (e ++ rest) = Ok (x, rest).
Proof.
  intros Hleaf Hx He Hlen. apply max_safe_below_2_64 in Hlen.
  destruct (encode_normalize v Hleaf x Hx) as [Hitem Heq].
  rewrite Heq in He. split; [exact Hitem | split; [exact He |]].
  destruct (_decode_encode x Hitem e He Hlen) as (n & Hn).
  exists n. intros fuel Hfuel. apply Hn, Hfuel.
Qed.

Lemma _decode_encode_normalized_witness :
  is_item (JArray [JBuffer [0x64; 0x6f; 0x67]; JBuffer [0x04; 0x00]; JBuffer []]) = true /\
  encode (JArray [JBuffer [0x64; 0x6f; 0x67]; JBuffer [0x04; 0x00]; JBuffer []]) =
    Ok [0xc8; 0x83; 0x64; 0x6f; 0x67; 0x82; 0x04; 0x00; 0x80] /\
  exists n, forall fuel,
      (n <= fuel)%nat ->
      _decode fuel ([0xc8; 0x83; 0x64; 0x6f; 0x67; 0x82; 0x04; 0x00; 0x80] ++ []) =
        Ok (JArray [JBuffer [0x64; 0x6f; 0x67]; JBuffer [0x04; 0x00]; JBuffer []], []).
Proof.
  apply (_decode_encode_normalized (JArray [JString "dog"; JNumber (Int 1024); JNull])).
  - reflexivity.
  - reflexivity.
  - reflexivity.
  - vm_compute. discriminate.
Defined.

(** ** Short strings that are cut *)

(** X19.  A short string that declares more bytes than follow it is not
    refused: [_decode] returns the bytes that are there and an empty
    remainder. *)
Theorem _decode_short_string_truncated (fuel : nat) (k : Z) (payload : Buffer) :
  1 <= k <= 55 -> buf_length payload < k ->
  _decode (S fuel) ((0x80 + k) :: payload) = Ok (JBuffer payload, []).
Proof. apply _decode_short_string_overrun. Qed.

Lemma _decode_short_string_truncated_witness :
  1 <= 3 <= 55 /\ buf_length [0x61] < 3 /\
  _decode 1 ((0x80 + 3) :: [0x61]) = Ok (JBuffer [0x61], []).
Proof.
  assert (H1 : 1 <= 3 <= 55) by lia.
  assert (H2 : buf_length [0x61] < 3) by (vm_compute; reflexivity).
  split; [exact H1 | split; [exact H2 |]].
  exact (_decode_short_string_truncated 0 3 [0x61] H1 H2).
Defined.

(** * Long lists of length zero *)






(** * The payload of a list, child by child *)

(** An outcome of [_decode] is its outcome under every budget that does
    not run out. *)
Lemma _decode_outcome_any_fuel (fuel0 : nat) (input : Buffer)
      (r : result (JSValue * Buffer)) :
  _decode fuel0 input = r -> r <> OutOfFuel ->
  forall fuel, _decode fuel input = OutOfFuel \/ _decode fuel input = r.
Proof.
  intros H Hr fuel.
  destruct (Nat.le_ge_cases fuel0 fuel) as [Hle | Hge].
  - right. exact (_decode_more_fuel fuel0 fuel input r H Hr Hle).
  - destruct (_decode fuel input) as [p | msg |] eqn:E; [right | right | now left].
    + rewrite <- H. symmetry.
      exact (_decode_more_fuel fuel fuel0 input _ E ltac:(discriminate) Hge).
    + rewrite <- H. symmetry.
      exact (_decode_more_fuel fuel fuel0 input _ E ltac:(discriminate) Hge).
Qed.

(** A loop that stalls yields nothing, whatever the budget. *)
Lemma child_stalls_decode_loop (span : Buffer) :
  child_stalls span ->
  forall fuel acc, decode_loop fuel span acc = OutOfFuel.
Proof.
  induction 1 as [b Hb | span Hne Hdiv | f span rem d Hne Hd _ IH]; intros fuel acc.
  - apply decode_loop_lone_marker, Hb.
  - destruct span as [| z span]; [now contradiction Hne |].
    destruct fuel as [| fuel].
    + cbn [decode_loop]. rewrite buf_length_cons.
      destruct (Z.eqb_spec (1 + buf_length span) 0); [| reflexivity].
      pose proof (buf_length_nonneg span). lia.
    + rewrite decode_loop_cons, Hdiv. reflexivity.
  - destruct span as [| z span]; [now contradiction Hne |].
    destruct fuel as [| fuel].
    + cbn [decode_loop]. rewrite buf_length_cons.
      destruct (Z.eqb_spec (1 + buf_length span) 0); [| reflexivity].
      pose proof (buf_length_nonneg span). lia.
    + rewrite decode_loop_cons.
      destruct (_decode_outcome_any_fuel f (z :: span) _ Hd ltac:(discriminate) fuel)
        as [-> | ->]; [reflexivity |].
      cbn [bind fst snd]. apply IH.
Qed.

(** On a span of octets, the loop reaches an outcome within a budget of
    twice the length of the span plus two, or it stalls. *)
Lemma decode_loop_settles_or_stalls (L : nat) (span : Buffer) :
  (List.length span <= L)%nat -> Forall is_byte span ->
  (forall fuel acc, (2 * L + 2 <= fuel)%nat -> decode_loop fuel span acc <> OutOfFuel) \/
  child_stalls span.
Proof.
  revert span. induction L as [| L IH]; intros [| z span] Hlen Hb.
  - left. intros fuel acc _. rewrite decode_loop_nil. discriminate.
  - cbn [List.length] in Hlen. lia.
  - left. intros fuel acc _. rewrite decode_loop_nil. discriminate.
  - destruct (proj1 (decode_settles (S L)) (z :: span) Hlen Hb) as [Hok | Hdiv].
    + destruct (_decode (2 * S L + 1) (z :: span)) as [[d rem] | msg |] eqn:E.
      * destruct (_decode_consumes _ _ _ _ Hb E) as [Hshort | (b & Hb' & Hin & _ & _)].
        -- destruct (proj1 (decode_results_are_items _) _ _ _ Hb E) as [_ Hrem].
           unfold buf_length in Hshort. cbn [List.length] in Hlen, Hshort.
           destruct (IH rem ltac:(lia) Hrem) as [Hok' | Hstall].
           ++ left. intros [| fuel] acc Hfuel; [lia |].
              rewrite decode_loop_cons.
              rewrite (_decode_more_fuel (2 * S L + 1) fuel _ _ E
                         ltac:(discriminate) ltac:(lia)).
              cbn [bind fst snd]. apply Hok'. lia.
           ++ right.
              apply (child_stalls_later (2 * S L + 1) (z :: span) rem d);
                [discriminate | exact E | exact Hstall].
        -- right. injection Hin as -> ->. exact (child_stalls_marker b Hb').
      * left. intros [| fuel] acc Hfuel; [lia |].
        rewrite decode_loop_cons.
        rewrite (_decode_more_fuel (2 * S L + 1) fuel _ _ E ltac:(discriminate) ltac:(lia)).
        discriminate.
      * exfalso. apply (Hok (2 * S L + 1)%nat ltac:(lia) E).
    + right. apply child_stalls_inside; [discriminate | exact Hdiv].
Qed.

(** C4, as the code has it.  For a buffer of octets in list form whose
    prefix is accepted and delimits the payload [span] and the [remainder]
    after it, the span is decoded child after child, each from the bytes
    that the previous one left.  A budget of twice the length of the buffer
    plus one settles the outcome, which is one of three, told apart by the
    children alone:
    - the children consume the span to its end: decode returns the list of
      the children, in order, and the remainder;
    - a child fails: decode fails at once with the error of that child;
    - the loop stalls, on a long-string marker that is all that is left or
      on a child that stalls itself: decode does not return.
    There is no check of the bytes that the children consume against the
    declared length: a short string, as a child, that declares more bytes
    than the span holds is returned cut to the bytes of the span. *)
Theorem list_payload_consumed_by_children
        (b : Z) (rest span remainder : Buffer) :
  0xc0 <= b -> Forall is_byte (b :: rest) ->
  payload_span (b :: rest) = Ok (span, remainder) ->
  (forall fuel,
      (2 * List.length (b :: rest) + 1 <= fuel)%nat ->
      _decode fuel (b :: rest) = _decode (2 * List.length (b :: rest) + 1) (b :: rest)) /\
  ((exists items,
       children_of span items /\
       _decode (2 * List.length (b :: rest) + 1) (b :: rest) =
         Ok (JArray items, remainder)) \/
   (exists msg,
       child_fails span msg /\
       _decode (2 * List.length (b :: rest) + 1) (b :: rest) = Throw msg) \/
   (child_stalls span /\
    forall fuel, _decode fuel (b :: rest) = OutOfFuel)) /\
  (forall items,
      children_of span items ->
      _decode (2 * List.length (b :: rest) + 1) (b :: rest) =
        Ok (JArray items, remainder)) /\
  (forall msg,
      child_fails span msg ->
      _decode (2 * List.length (b :: rest) + 1) (b :: rest) = Throw msg) /\
  (child_stalls span ->
   forall fuel, _decode fuel (b :: rest) = OutOfFuel) /\
  (forall k payload,
      1 <= k <= 55 -> span = (0x80 + k) :: payload -> buf_length payload < k ->
      _decode (2 * List.length (b :: rest) + 1) (b :: rest) =
        Ok (JArray [JBuffer payload], remainder)).
Proof.
  intros Hb Hin Hspan.
  assert (Hstep : forall fuel,
             _decode (S fuel) (b :: rest) =
               (decoded <- decode_loop fuel span [] ;; Ok (JArray decoded, remainder))).
  { intros fuel. rewrite _decode_list_form, Hspan by lia. reflexivity. }
  assert (Hsettled : forall fuel,
             (2 * List.length (b :: rest) + 1 <= fuel)%nat ->
             _decode fuel (b :: rest) =
               _decode (2 * List.length (b :: rest) + 1) (b :: rest)).
  { intros fuel Hfuel.
    destruct (proj1 (decode_settles (List.length (b :: rest))) (b :: rest)
                (Nat.le_refl _) Hin) as [Hok | Hdiv].
    - apply (_decode_more_fuel (2 * List.length (b :: rest) + 1));
        [reflexivity | | exact Hfuel].
      apply Hok. lia.
    - now rewrite !Hdiv. }
  assert (Hstall : child_stalls span -> forall fuel, _decode fuel (b :: rest) = OutOfFuel).
  { intros Hs [| fuel]; [reflexivity |].
    rewrite Hstep, (child_stalls_decode_loop span Hs). reflexivity. }
  assert (Hchildren : forall items,
             children_of span items ->
             _decode (2 * List.length (b :: rest) + 1) (b :: rest) =
               Ok (JArray items, remainder)).
  { intros items Hch. destruct (children_decode_loop _ _ Hch) as (n & Hn).
    rewrite <- (Hsettled (S (Nat.max n (2 * List.length (b :: rest) + 1))) ltac:(lia)).
    rewrite Hstep, Hn by lia. reflexivity. }
  assert (Hfails : forall msg,
             child_fails span msg ->
             _decode (2 * List.length (b :: rest) + 1) (b :: rest) = Throw msg).
  { intros msg Hf. destruct (child_fails_decode_loop _ _ Hf) as (n & Hn).
    rewrite <- (Hsettled (S (Nat.max n (2 * List.length (b :: rest) + 1))) ltac:(lia)).
    rewrite Hstep, Hn by lia. reflexivity. }
  split; [exact Hsettled |].
  split; [| split; [exact Hchildren | split; [exact Hfails | split; [exact Hstall |]]]].
  - destruct (payload_span_shorter b rest span remainder Hb Hin Hspan)
      as [Hshort Hbytes].
    unfold buf_length in Hshort.
    destruct (decode_loop_settles_or_stalls (List.length rest) span ltac:(lia) Hbytes)
      as [Hok | Hs].
    + replace (2 * List.length (b :: rest) + 1)%nat
        with (S (2 * List.length rest + 2)) by (cbn [List.length]; lia).
      rewrite Hstep.
      destruct (decode_loop (2 * List.length rest + 2) span [])
        as [decoded | msg |] eqn:Hloop.
      * left. apply decode_loop_children in Hloop. destruct Hloop as (ds & -> & Hds).
        exists ds. split; [exact Hds | reflexivity].
      * right. left. exists msg. split; [| reflexivity].
        exact (decode_loop_child_fails _ _ _ _ Hloop).
      * exfalso. exact (Hok _ [] (Nat.le_refl _) Hloop).
    + right. right. split; [exact Hs | exact (Hstall Hs)].
  - intros k payload Hk -> Hshort. apply Hchildren.
    apply (children_next 1 _ ((0x80 + k) :: payload) [] (JBuffer payload) []).
    + discriminate.
    + apply _decode_short_string_overrun; assumption.
    + now rewrite app_nil_r.
    + constructor.
Qed.

Lemma list_payload_consumed_by_children_witness :
  0xc0 <= 0xc2 /\
  Forall is_byte [0xc2; 0x83; 0x61; 0x00] /\
  payload_span [0xc2; 0x83; 0x61; 0x00] = Ok ([0x83; 0x61], [0x00]) /\
  _decode (2 * List.length [0xc2; 0x83; 0x61; 0x00] + 1) [0xc2; 0x83; 0x61; 0x00] =
    Ok (JArray [JBuffer [0x61]], [0x00]).
Proof.
  assert (H1 : 0xc0 <= 0xc2) by lia.
  assert (H2 : Forall is_byte [0xc2; 0x83; 0x61; 0x00])
    by (repeat constructor; unfold is_byte; lia).
  assert (H3 : payload_span [0xc2; 0x83; 0x61; 0x00] = Ok ([0x83; 0x61], [0x00]))
    by reflexivity.
  split; [exact H1 | split; [exact H2 | split; [exact H3 |]]].
  apply (proj2 (proj2 (proj2 (proj2 (proj2
           (list_payload_consumed_by_children 0xc2 [0x83; 0x61; 0x00] _ _ H1 H2 H3)))))
           3 [0x61]).
  - lia.
  - reflexivity.
  - vm_compute. reflexivity.
Defined.
